(** * format_ruby_movie.py: a shallow embedding and its verified properties

    The script reformats a ruby-annotated screenplay into [\stage],
    [\charname] and [dialogue] markup.  Python [str] values are sequences
    of Unicode code points, so a string is modelled as a list of code
    points ([N]); indices and slice bounds are [Z], as Python's are. *)

From Stdlib Require Import NArith ZArith Ascii Lia.
From stdpp Require Import base list strings gmap.

Local Open Scope N_scope.

(** ** Python strings *)

Module PyStr.

Abbreviation pystr := (list N).

(** Source text literals are written as UTF-8 and decoded to code points. *)

Fixpoint bytes_of (s : string) : list N :=
  match s with
  | EmptyString => []
  | String a r => N_of_ascii a :: bytes_of r
  end.

Fixpoint utf8_decode (bs : list N) : pystr :=
  match bs with
  | [] => []
  | b :: r =>
      if b <? 128 then b :: utf8_decode r
      else if b <? 224 then
        match r with
        | c1 :: r1 => ((b - 192) * 64 + (c1 - 128)) :: utf8_decode r1
        | [] => [b]
        end
      else if b <? 240 then
        match r with
        | c1 :: c2 :: r2 =>
            ((b - 224) * 4096 + (c1 - 128) * 64 + (c2 - 128)) :: utf8_decode r2
        | _ => [b]
        end
      else
        match r with
        | c1 :: c2 :: c3 :: r3 =>
            ((b - 240) * 262144 + (c1 - 128) * 4096 + (c2 - 128) * 64 + (c3 - 128))
              :: utf8_decode r3
        | _ => [b]
        end
  end.

Definition py (s : string) : pystr := utf8_decode (bytes_of s).

(** [str.isspace] on one code point (CPython's [_PyUnicode_IsWhitespace]);
    the same set is the regex class [\s] on [str] patterns. *)
Definition isspace (c : N) : bool :=
  ((9 <=? c) && (c <=? 13)) || ((28 <=? c) && (c <=? 32))
  || (c =? 133) || (c =? 160) || (c =? 5760)
  || ((8192 <=? c) && (c <=? 8202))
  || (c =? 8232) || (c =? 8233) || (c =? 8239) || (c =? 8287) || (c =? 12288).

Fixpoint dropwhile (p : N -> bool) (s : pystr) : pystr :=
  match s with
  | [] => []
  | c :: r => if p c then dropwhile p r else s
  end.

(** [s.lstrip()], [s.rstrip()], [s.strip()] and [s.rstrip("\n")]. *)
Definition lstrip (s : pystr) : pystr := dropwhile isspace s.
Definition rstrip (s : pystr) : pystr := rev (dropwhile isspace (rev s)).
Definition strip (s : pystr) : pystr := rstrip (lstrip s).
Definition rstrip_nl (s : pystr) : pystr := rev (dropwhile (N.eqb 10) (rev s)).

(** [s.startswith(p)], [s.endswith(p)], [p in s]. *)
Fixpoint startswith (s p : pystr) {struct p} : bool :=
  match p, s with
  | [], _ => true
  | _ :: _, [] => false
  | a :: p', c :: s' => (c =? a) && startswith s' p'
  end.

Definition endswith (s p : pystr) : bool := startswith (rev s) (rev p).

Fixpoint contains (p s : pystr) : bool :=
  startswith s p ||
  match s with
  | [] => false
  | _ :: r => contains p r
  end.

(** [s.split(sep, 1)] when [sep in s]: the parts around the first
    occurrence.  [None] stands for the one-element result. *)
Fixpoint split1 (sep s : pystr) : option (pystr * pystr) :=
  if startswith s sep then Some ([], drop (length sep) s)
  else match s with
       | [] => None
       | c :: r =>
           match split1 sep r with
           | Some (a, b) => Some (c :: a, b)
           | None => None
           end
       end.

(** [s.rfind(sub)]: the highest index of an occurrence, or -1. *)
Fixpoint rfind (sub s : pystr) : Z :=
  match s with
  | [] => if startswith s sub then 0%Z else (-1)%Z
  | _ :: r =>
      let i := rfind sub r in
      if (0 <=? i)%Z then (i + 1)%Z
      else if startswith s sub then 0%Z else (-1)%Z
  end.

(** Slices [s[lo:hi]], [s[lo:]] and [s[:hi]]: a negative bound counts from
    the end, and every bound is clamped to [0 .. len(s)]. *)
Definition slice_index (s : pystr) (i : Z) : nat :=
  let n := Z.of_nat (length s) in
  Z.to_nat (Z.min n (Z.max 0 (if (i <? 0)%Z then i + n else i)))%Z.

Definition slice (s : pystr) (lo hi : Z) : pystr :=
  take (slice_index s hi - slice_index s lo)%nat (drop (slice_index s lo) s).
Definition slice_from (s : pystr) (lo : Z) : pystr := drop (slice_index s lo) s.
Definition slice_to (s : pystr) (hi : Z) : pystr := take (slice_index s hi) s.

(** [sep.join(parts)]. *)
Fixpoint join (sep : pystr) (parts : list pystr) : pystr :=
  match parts with
  | [] => []
  | [p] => p
  | p :: rest => p ++ sep ++ join sep rest
  end.

(** [text.splitlines()]: the boundaries are \n, \r, \r\n, \v, \f, \x1c,
    \x1d, \x1e, \x85, U+2028 and U+2029; a final boundary opens no line. *)
Definition is_linebreak (c : N) : bool :=
  ((10 <=? c) && (c <=? 13)) || ((28 <=? c) && (c <=? 30))
  || (c =? 133) || (c =? 8232) || (c =? 8233).

Fixpoint splitlines_from (cur : pystr) (s : pystr) : list pystr :=
  match s with
  | [] => match cur with [] => [] | _ => [cur] end
  | c :: r =>
      if is_linebreak c then
        match r with
        | d :: r' =>
            if (c =? 13) && (d =? 10) then cur :: splitlines_from [] r'
            else cur :: splitlines_from [] r
        | [] => [cur]
        end
      else splitlines_from (cur ++ [c]) r
  end.

Definition splitlines (s : pystr) : list pystr := splitlines_from [] s.

End PyStr.
Import PyStr.


(** ** Module constants *)

Definition fw_colon : pystr := Eval vm_compute in py "：".
Definition fw_open : pystr := Eval vm_compute in py "（".
Definition fw_close : pystr := Eval vm_compute in py "）".
Definition hw_open : pystr := Eval vm_compute in py "(".
Definition hw_close : pystr := Eval vm_compute in py ")".
Definition lbrace : N := 123.
Definition rbrace : N := 125.

(** [RUBY_RE], matched at the head of [s].  The pattern is the literal
    [\ruby{], a captured run of characters other than [}], the literals
    [}] and [{], a second such run, and a closing [}].  Each run is greedy
    and is followed by a literal [}], so it is the whole run up to the
    next [}]: no shorter run can be followed by one.  The result is the
    captured group and the text after the match. *)
Fixpoint span_not (c : N) (s : pystr) : pystr * pystr :=
  match s with
  | [] => ([], [])
  | x :: r =>
      if x =? c then ([], s)
      else let '(a, b) := span_not c r in (x :: a, b)
  end.

Definition ruby_open : pystr := Eval vm_compute in py "\ruby{".

Definition RUBY_RE_match (s : pystr) : option (pystr * pystr) :=
  if startswith s ruby_open then
    let '(base, r1) := span_not rbrace (drop (length ruby_open) s) in
    match r1 with
    | c1 :: c2 :: r2 =>
        if (c1 =? rbrace) && (c2 =? lbrace) then
          match snd (span_not rbrace r2) with
          | c3 :: rest => if c3 =? rbrace then Some (base, rest) else None
          | [] => None
          end
        else None
    | _ => None
    end
  else None.

(** [RUBY_RE.sub(r"\1", s)]: scan left to right; a match is replaced by
    its group and the scan resumes after it, any other character is
    copied.  A match is never empty, so [length s] steps are enough. *)
Fixpoint RUBY_RE_sub (fuel : nat) (s : pystr) : pystr :=
  match fuel with
  | O => s
  | S f =>
      match RUBY_RE_match s with
      | Some (base, rest) => base ++ RUBY_RE_sub f rest
      | None =>
          match s with
          | [] => []
          | c :: r => c :: RUBY_RE_sub f r
          end
      end
  end.

Definition plain_text (s : pystr) : pystr := RUBY_RE_sub (length s) s.

(** [SKIP_RE.search(plain)].  The pattern opens with [^] and has no
    MULTILINE flag, so only a match at index 0 exists.  Every [\s*] is
    followed by a literal that starts with a non-space character, so it
    takes the whole leading run of spaces.  [$] holds at the end of the
    string and before a final newline. *)
Definition at_dollar (s : pystr) : bool :=
  match s with
  | [] => true
  | [c] => c =? 10
  | _ => false
  end.

Definition SKIP_RE_search (plain : pystr) : bool :=
  let t := lstrip plain in
  startswith plain (py "周星馳-")
  || startswith t (py "由 Admin")
  || startswith t (py "Admin 在")
  || (startswith t (py "Admin") && at_dollar (drop 5 t))
  || startswith t (py "文章數")
  || startswith t (py "注冊日期")
  || startswith t (py "LIKEDISLIKE")
  || startswith t (py "回復：").

Definition STAGE_NAMES : gset pystr := {[ py "外景"; py "內景"; py "場景" ]}.

(** ** merge_parenthetical_lines *)

Definition opens_paren (s : pystr) : bool :=
  startswith s fw_open || startswith s hw_open.
Definition closes_paren (s : pystr) : bool :=
  endswith s fw_close || endswith s hw_close.

(** One iteration of the loop over [lines]; the state is
    [(merged, paren_buf)]. *)
Definition merge_step (st : list pystr * option pystr) (line : pystr)
  : list pystr * option pystr :=
  let '(merged, paren_buf) := st in
  let raw := rstrip_nl line in
  let stripped := strip raw in
  match paren_buf with
  | Some buf =>
      let buf := buf ++ stripped in
      if closes_paren buf then (merged ++ [buf], None)
      else (merged, Some buf)
  | None =>
      if opens_paren stripped && negb (closes_paren stripped)
      then (merged, Some stripped)
      else (merged ++ [raw], None)
  end.

Definition merge_loop (lines : list pystr) : list pystr * option pystr :=
  fold_left merge_step lines ([], None).

Definition merge_parenthetical_lines (lines : list pystr) : list pystr :=
  let '(merged, paren_buf) := merge_loop lines in
  match paren_buf with
  | Some buf => merged ++ [buf]
  | None => merged
  end.

(** ** format_script: classification *)

(** A block is one of the two dict shapes the script builds:
    [{"type": "stage", "text"}] and
    [{"type": "dialogue", "char", "stage", "lines"}]. *)
Inductive block :=
| StageBlock (text : pystr)
| DialogueBlock (char : pystr) (stage : option pystr) (lines : list pystr).

(** The loop state.  [last_dialogue] is a reference to a dict that sits in
    [blocks]; it is kept as the index of that dict, so that appending to
    its lines updates the block inside [blocks]. *)
Record classifier := Classifier {
  blocks : list block;
  last_dialogue : option nat;
  prev_blank : bool
}.

Definition init : classifier :=
  {| blocks := []; last_dialogue := None; prev_blank := true |}.

(** [block["lines"].append(s)] *)
Definition append_line (s : pystr) (b : block) : block :=
  match b with
  | DialogueBlock c st ls => DialogueBlock c st (ls ++ [s])
  | StageBlock t => StageBlock t
  end.

Definition noise_marker : pystr := Eval vm_compute in py "作了第".

Definition is_noise (plain : pystr) : bool :=
  SKIP_RE_search plain || contains noise_marker plain.

(** The performance note of a dialogue header: the new [name_raw] and
    [stage_raw]. *)
Definition split_note (name_raw : pystr) : pystr * option pystr :=
  if contains fw_open name_raw && endswith name_raw fw_close then
    let idx := rfind fw_open name_raw in
    (strip (slice_to name_raw idx), Some (strip (slice name_raw (idx + 1) (-1))))
  else if contains hw_open name_raw && endswith name_raw hw_close then
    let idx := rfind hw_open name_raw in
    (strip (slice_to name_raw idx), Some (strip (slice name_raw (idx + 1) (-1))))
  else (name_raw, None).

(** The text of the stage block made from a parenthetical line. *)
Definition unwrap_paren (s : pystr) : pystr :=
  if opens_paren s && closes_paren s then strip (slice s 1 (-1))
  else if opens_paren s then strip (slice_from s 1)
  else if closes_paren s then strip (slice_to s (-1))
  else s.

Definition push_stage (st : classifier) (text : pystr) : classifier :=
  {| blocks := blocks st ++ [StageBlock text];
     last_dialogue := None;
     prev_blank := false |}.

(** A speaker line: [name_raw] and [text_raw] are the two parts of
    [s.split("：", 1)]. *)
Definition speaker_line (st : classifier) (name_raw text_raw : pystr) : classifier :=
  let name_raw := strip name_raw in
  let text_raw := strip text_raw in
  let name_plain := plain_text name_raw in
  if bool_decide (name_plain ∈ STAGE_NAMES) then
    push_stage st (strip (name_raw ++ fw_colon ++ text_raw))
  else
    let '(name_raw, stage_raw) := split_note name_raw in
    {| blocks := blocks st ++ [DialogueBlock name_raw stage_raw [text_raw]];
       last_dialogue := Some (length (blocks st));
       prev_blank := false |}.

(** A non-dialogue line: a parenthetical, a continuation of the current
    dialogue, or new stage text. *)
Definition other_line (st : classifier) (s : pystr) : classifier :=
  if opens_paren s || closes_paren s then
    push_stage st (unwrap_paren s)
  else
    match last_dialogue st with
    | Some i =>
        if negb (prev_blank st) then
          {| blocks := alter (append_line s) i (blocks st);
             last_dialogue := Some i;
             prev_blank := false |}
        else push_stage st s
    | None => push_stage st s
    end.

(** One iteration of the loop over [merged].  [split1] yields two parts
    exactly when the separator occurs in [s] (lemma [split1_contains]),
    which is the test the source makes before it splits. *)
Definition classify_line (st : classifier) (raw : pystr) : classifier :=
  match strip raw with
  | [] => {| blocks := blocks st;
             last_dialogue := last_dialogue st;
             prev_blank := true |}
  | _ =>
      let s := strip raw in
      let plain := plain_text s in
      if is_noise plain then st
      else
        match split1 fw_colon s with
        | Some (name_raw, text_raw) => speaker_line st name_raw text_raw
        | None => other_line st s
        end
  end.

Definition classify (merged : list pystr) : classifier :=
  fold_left classify_line merged init.

(** ** format_script: serialization *)

Definition nl : pystr := [10].

(** The lines one block adds to [out_lines]; [if stage:] holds for a
    string that is present and not empty. *)
Definition emit_block (out_lines : list pystr) (b : block) : list pystr :=
  match b with
  | StageBlock text =>
      (out_lines ++ [py "\stage{" ++ text ++ py "}"]) ++ [[]]
  | DialogueBlock char stage lines =>
      let out1 := out_lines ++ [py "\charname{" ++ char ++ py "}"] in
      let out2 :=
        match stage with
        | Some (c :: r) => out1 ++ [py "\stage{" ++ (c :: r) ++ py "}"]
        | _ => out1
        end in
      (((out2 ++ [py "\begin{dialogue}"]) ++ lines) ++ [py "\end{dialogue}"]) ++ [[]]
  end.

Definition serialize (bs : list block) : pystr :=
  rstrip (join nl (fold_left emit_block bs [])) ++ nl.

Definition format_script (text : pystr) : pystr :=
  let lines := splitlines text in
  let merged := merge_parenthetical_lines lines in
  serialize (blocks (classify merged)).

(** ** Predicates used in the statements *)

(** A merged line the classifier skips as blank, or discards as noise. *)
Definition blank (raw : pystr) : bool :=
  match strip raw with [] => true | _ => false end.

Definition noise_line (raw : pystr) : bool :=
  negb (blank raw) && is_noise (plain_text (strip raw)).

(** The text a line contributes to a parenthetical buffer. *)
Definition stripped (line : pystr) : pystr := strip (rstrip_nl line).

(** The test that activates the merger's buffer. *)
Definition opens_buffer (line : pystr) : bool :=
  opens_paren (stripped line) && negb (closes_paren (stripped line)).

(** What the merger's loop state will still emit: one line when the
    buffer is active. *)
Definition pending (buf : option pystr) : nat :=
  match buf with Some _ => 1%nat | None => 0%nat end.

(** Some position of [s] starts an annotation span. *)
Fixpoint has_span (s : pystr) : bool :=
  match RUBY_RE_match s with
  | Some _ => true
  | None => match s with [] => false | _ :: r => has_span r end
  end.

Definition backslash : N := 92.
Definition ruby_token : pystr := Eval vm_compute in py "\ruby".

(** Balanced spans: every [\ruby] token of [s] opens a well-formed span. *)
Fixpoint spans_balanced (s : pystr) : bool :=
  (if startswith s ruby_token
   then match RUBY_RE_match s with Some _ => true | None => false end
   else true)
  && match s with [] => true | _ :: r => spans_balanced r end.

(** Flat spans: every backslash of [s] opens a well-formed span whose base
    text holds no backslash. *)
Fixpoint spans_flat (s : pystr) : bool :=
  match s with
  | [] => true
  | c :: r =>
      (if c =? backslash
       then match RUBY_RE_match s with
            | Some (base, _) => negb (contains [backslash] base)
            | None => false
            end
       else true)
      && spans_flat r
  end.

(** The serializer's templates, in the words of the specification: a
    stage block is one [\stage] line and a blank line; a dialogue block is
    a [\charname] line, a [\stage] line when it has a note to show, the
    [dialogue] environment around its lines, and a blank line. *)
Definition block_template (b : block) : list pystr :=
  match b with
  | StageBlock text => [py "\stage{" ++ text ++ py "}"; []]
  | DialogueBlock char stage lines =>
      [py "\charname{" ++ char ++ py "}"]
      ++ match stage with
         | Some (c :: r) => [py "\stage{" ++ (c :: r) ++ py "}"]
         | _ => []
         end
      ++ [py "\begin{dialogue}"] ++ lines ++ [py "\end{dialogue}"; []]
  end.

Definition dialogue_lines (b : block) : option (list pystr) :=
  match b with
  | DialogueBlock _ _ ls => Some ls
  | StageBlock _ => None
  end.

Definition is_stage (b : block) : bool :=
  match b with StageBlock _ => true | DialogueBlock _ _ _ => false end.

(** A line that reaches the speaker, parenthetical or continuation
    paths: neither blank nor discarded. *)
Definition content_line (raw : pystr) : bool :=
  negb (blank raw) && negb (noise_line raw).

(** The number of content lines a block stands for. *)
Definition block_weight (b : block) : nat :=
  match b with
  | StageBlock _ => 1%nat
  | DialogueBlock _ _ ls => length ls
  end.


(** The text of an annotation span. *)
Definition annotation (base reading : pystr) : pystr :=
  ruby_open ++ base ++ [rbrace; lbrace] ++ reading ++ [rbrace].

Definition is_open_bracket (c : N) : bool := (c =? 65288) || (c =? 40).
Definition is_close_bracket (c : N) : bool := (c =? 65289) || (c =? 41).

(** The scan of [RUBY_RE.sub] once more, keeping the origin of every piece
    of its output: a character copied from the input, or the base text put
    in the place of a span. *)
Inductive piece :=
| Copied (c : N)
| Replaced (base : pystr).

Fixpoint RUBY_RE_scan (fuel : nat) (s : pystr) : list piece :=
  match fuel with
  | O => map Copied s
  | S f =>
      match RUBY_RE_match s with
      | Some (base, rest) => Replaced base :: RUBY_RE_scan f rest
      | None =>
          match s with
          | [] => []
          | c :: r => Copied c :: RUBY_RE_scan f r
          end
      end
  end.

Definition scan (s : pystr) : list piece := RUBY_RE_scan (length s) s.

Definition piece_text (p : piece) : pystr :=
  match p with
  | Copied c => [c]
  | Replaced base => base
  end.

Definition ruby_word : pystr := Eval vm_compute in py "ruby".

(** One text is a prefix of the other. *)
Definition compatible (a b : pystr) : bool := startswith a b || startswith b a.

(** A base in which no character starts the [\ruby] token or a part of it
    that runs to the end of the base. *)
Fixpoint base_ok (b : pystr) : bool :=
  match b with
  | [] => true
  | _ :: r => negb (compatible b ruby_token) && base_ok r
  end.

(** After a copied backslash that still lacks [w] to make the token: the
    copied characters that follow do not lead, along [w], straight to a
    replaced span whose base could go on with [w]. *)
Fixpoint stray_ok (w : pystr) (ps : list piece) : bool :=
  match w, ps with
  | x :: w', Copied c :: ps' => if c =? x then stray_ok w' ps' else true
  | _ :: _, Replaced b :: _ => negb (compatible b w)
  | _, _ => true
  end.

Fixpoint pieces_safe (ps : list piece) : bool :=
  match ps with
  | [] => true
  | Copied c :: ps' =>
      (if c =? backslash then stray_ok ruby_word ps' else true) && pieces_safe ps'
  | Replaced b :: ps' => base_ok b && pieces_safe ps'
  end.

(** * Checks on concrete inputs *)

Example code_points :
  py "：" = [65306] /\ py "（）()" = [65288; 65289; 40; 41] /\
  py "外景" = [22806; 26223] /\ py "內景" = [20839; 26223] /\
  py "場景" = [22580; 26223] /\ py "\{}" = [backslash; lbrace; rbrace].
Proof. repeat split; reflexivity. Qed.

Example splitlines_crlf :
  splitlines (py "a" ++ [13; 10] ++ py "b" ++ [10; 10]) = [py "a"; py "b"; []].
Proof. reflexivity. Qed.

Example scenario_dialogue :
  format_script (py "張三：你好")
  = join nl [py "\charname{張三}"; py "\begin{dialogue}"; py "你好"; py "\end{dialogue}"] ++ nl.
Proof. vm_compute. reflexivity. Qed.

Example scenario_note :
  format_script (py "李四(笑)：你來了")
  = join nl [py "\charname{李四}"; py "\stage{笑}"; py "\begin{dialogue}"; py "你來了"; py "\end{dialogue}"] ++ nl.
Proof. vm_compute. reflexivity. Qed.

Example scenario_merge :
  format_script (py "（他轉身" ++ nl ++ py "離開）") = py "\stage{他轉身離開}" ++ nl.
Proof. vm_compute. reflexivity. Qed.

Example scenario_noise :
  format_script (py "回復：abc") = nl.
Proof. vm_compute. reflexivity. Qed.

Example scenario_stage_name :
  format_script (py "外景：海邊") = py "\stage{外景：海邊}" ++ nl.
Proof. vm_compute. reflexivity. Qed.

(** * String lemmas *)

Section Strings.

Lemma dropwhile_head p s :
  dropwhile p s = [] \/ exists c r, dropwhile p s = c :: r /\ p c = false.
Proof.
  induction s as [|c r IH]; simpl; [by left|].
  destruct (p c) eqn:E; [done|]. right. by exists c, r.
Qed.

Lemma dropwhile_split p s :
  exists w, s = w ++ dropwhile p s /\ Forall (fun c => p c = true) w.
Proof.
  induction s as [|c r [w [IH Hw]]]; simpl; [by exists []|].
  destruct (p c) eqn:E.
  - exists (c :: w). split; [simpl; by rewrite <- IH | by constructor].
  - by exists [].
Qed.

Lemma dropwhile_all p s : Forall (fun c => p c = true) s -> dropwhile p s = [].
Proof. induction 1 as [|c r Hc _ IH]; simpl; [done|]. by rewrite Hc. Qed.

Lemma rstrip_split s :
  exists w, s = rstrip s ++ w /\ Forall (fun c => isspace c = true) w.
Proof.
  destruct (dropwhile_split isspace (rev s)) as [w [Hw Hall]].
  exists (rev w). split.
  - unfold rstrip. rewrite <- rev_app_distr, <- Hw. by rewrite rev_involutive.
  - apply Forall_forall. intros x Hx. rewrite Forall_forall in Hall.
    apply Hall. by apply list_elem_of_In, in_rev, list_elem_of_In.
Qed.

Lemma rstrip_last s :
  rstrip s = [] \/ exists pre c, rstrip s = pre ++ [c] /\ isspace c = false.
Proof.
  unfold rstrip.
  destruct (dropwhile_head isspace (rev s)) as [->|(c & r & -> & Hc)]; [by left|].
  right. by exists (rev r), c.
Qed.

Lemma rstrip_fixed pre c : isspace c = false -> rstrip (pre ++ [c]) = pre ++ [c].
Proof.
  intros Hc. unfold rstrip. rewrite rev_unit. simpl. rewrite Hc. simpl.
  by rewrite rev_involutive.
Qed.

Lemma strip_head s c r : strip s = c :: r -> isspace c = false.
Proof.
  unfold strip, lstrip. intros H.
  destruct (rstrip_split (dropwhile isspace s)) as [w [Hw _]].
  rewrite H in Hw.
  destruct (dropwhile_head isspace s) as [E|(c' & r' & E & Hc)];
    rewrite E in Hw; simplify_eq/=. done.
Qed.

Lemma strip_last s :
  strip s = [] \/ exists pre c, strip s = pre ++ [c] /\ isspace c = false.
Proof. apply rstrip_last. Qed.

Lemma strip_fixed c r pre d :
  isspace c = false -> isspace d = false -> c :: r = pre ++ [d] ->
  strip (c :: r) = c :: r.
Proof.
  intros Hc Hd E. unfold strip, lstrip. simpl. rewrite Hc, E.
  by apply rstrip_fixed.
Qed.

Lemma strip_all_space s : Forall (fun c => isspace c = true) s -> strip s = [].
Proof.
  intros H. unfold strip, lstrip. by rewrite dropwhile_all.
Qed.

Lemma startswith_app s p : startswith (p ++ s) p = true.
Proof.
  induction p as [|a p IH]; [done|].
  cbn [app startswith]. by rewrite N.eqb_refl.
Qed.

Lemma startswith_prefix s p : startswith s p = true -> s = p ++ drop (length p) s.
Proof.
  revert s. induction p as [|a p IH]; intros [|c s]; try done.
  cbn [startswith length drop app].
  intros [Hc Hs]%andb_true_iff. apply N.eqb_eq in Hc as ->.
  f_equal. by apply IH.
Qed.

Lemma endswith_app s p : endswith (s ++ p) p = true.
Proof. unfold endswith. rewrite rev_app_distr. apply startswith_app. Qed.

Lemma endswith_last s c d : endswith (s ++ [c]) [d] = (c =? d).
Proof.
  unfold endswith. rewrite rev_unit. cbn [rev app startswith].
  by rewrite andb_true_r.
Qed.

Lemma split1_contains sep s : contains sep s = true <-> is_Some (split1 sep s).
Proof.
  induction s as [|c r IH].
  - simpl. destruct (startswith [] sep); split; try done;
      try (by intros _; eexists); by intros [? ?].
  - cbn [contains split1]. destruct (startswith (c :: r) sep) eqn:E.
    + split; [by intros _; eexists | done].
    + rewrite orb_false_l, IH.
      destruct (split1 sep r) as [[a b]|]; split; intros [? ?]; try done; by eexists.
Qed.

Lemma split1_None sep s : split1 sep s = None -> contains sep s = false.
Proof.
  intros H. destruct (contains sep s) eqn:E; [|done].
  apply split1_contains in E as [? E]. congruence.
Qed.

Lemma split1_parts sep s a b :
  split1 sep s = Some (a, b) -> s = a ++ sep ++ b.
Proof.
  revert a b. induction s as [|c r IH]; intros a b; cbn [split1].
  - destruct (startswith [] sep) eqn:E; [|done].
    intros [= <- <-]. by apply startswith_prefix in E.
  - destruct (startswith (c :: r) sep) eqn:E.
    + intros [= <- <-]. by apply startswith_prefix in E.
    + destruct (split1 sep r) as [[a' b']|] eqn:E'; [|done].
      intros [= <- <-]. simpl. f_equal. by apply IH.
Qed.

End Strings.

(** * The line merger *)

Section Merger.

Lemma merge_loop_snoc lines x :
  merge_loop (lines ++ [x]) = merge_step (merge_loop lines) x.
Proof. unfold merge_loop. by rewrite fold_left_app. Qed.

Lemma merge_step_count st x :
  (length (fst (merge_step st x)) + pending (snd (merge_step st x))
   <= S (length (fst st) + pending (snd st)))%nat.
Proof.
  destruct st as [merged [buf|]]; unfold merge_step;
    repeat case_match; simpl; rewrite ?length_app; simpl; lia.
Qed.

Lemma merge_fold_count lines st :
  (length (fst (fold_left merge_step lines st))
   + pending (snd (fold_left merge_step lines st))
   <= length (fst st) + pending (snd st) + length lines)%nat.
Proof.
  revert st. induction lines as [|x lines IH]; intros st; simpl; [lia|].
  specialize (IH (merge_step st x)). pose proof (merge_step_count st x). lia.
Qed.

Lemma merge_fold_quiet lines merged :
  Forall (fun l => opens_buffer l = false) lines ->
  fold_left merge_step lines (merged, None)
  = (merged ++ map rstrip_nl lines, None).
Proof.
  intros H. revert merged.
  induction H as [|x lines Hx _ IH]; intros merged; simpl.
  - by rewrite app_nil_r.
  - unfold opens_buffer, stripped in Hx. rewrite Hx.
    rewrite IH. by rewrite <- app_assoc.
Qed.

(** C5: the merger never adds lines, and it keeps the line count when no
    line activates the parenthetical buffer. *)
Theorem merge_line_count (lines : list pystr) :
  (length (merge_parenthetical_lines lines) <= length lines)%nat /\
  (Forall (fun l => opens_buffer l = false) lines ->
   length (merge_parenthetical_lines lines) = length lines).
Proof.
  split.
  - pose proof (merge_fold_count lines ([], None)) as H.
    unfold merge_parenthetical_lines, merge_loop.
    destruct (fold_left merge_step lines ([], None)) as [merged [buf|]];
      simpl in *; rewrite ?length_app; simpl; lia.
  - intros H. unfold merge_parenthetical_lines, merge_loop.
    rewrite (merge_fold_quiet _ _ H). simpl. by rewrite length_map.
Qed.

Lemma merge_line_count_witness :
  length (merge_parenthetical_lines [py "（他轉身離開）"; py "甲：乙"]) = 2%nat.
Proof.
  apply (proj2 (merge_line_count [py "（他轉身離開）"; py "甲：乙"])).
  repeat constructor.
Defined.

(** C6: a buffer still active at the end of the input is flushed as the
    last merged line; it holds the stripped text of every line from the
    one that opened it to the end of the input. *)
Theorem merge_flushes_open_buffer (lines merged : list pystr) (buf : pystr) :
  merge_loop lines = (merged, Some buf) ->
  merge_parenthetical_lines lines = merged ++ [buf] /\
  exists pre opener rest,
    lines = pre ++ opener :: rest /\
    merge_loop pre = (merged, None) /\
    opens_buffer opener = true /\
    buf = stripped opener ++ concat (map stripped rest).
Proof.
  intros H. split; [unfold merge_parenthetical_lines; by rewrite H|].
  revert merged buf H.
  induction lines as [|x lines IH] using rev_ind; intros merged buf H; [done|].
  rewrite merge_loop_snoc in H.
  destruct (merge_loop lines) as [m [b|]] eqn:E; unfold merge_step in H.
  - destruct (closes_paren (b ++ strip (rstrip_nl x))) eqn:Hc; [done|].
    injection H as <- <-.
    destruct (IH m b eq_refl) as (pre & opener & rest & -> & Hpre & Hop & ->).
    exists pre, opener, (rest ++ [x]). repeat split; try done.
    + by rewrite <- app_assoc.
    + rewrite map_app, concat_app. simpl. by rewrite app_nil_r, app_assoc.
  - destruct (opens_paren (strip (rstrip_nl x))
              && negb (closes_paren (strip (rstrip_nl x)))) eqn:Hop; [|done].
    injection H as <- <-.
    exists lines, x, []. repeat split; try done.
    simpl. by rewrite app_nil_r.
Qed.

Lemma merge_flushes_open_buffer_witness :
  merge_parenthetical_lines [py "甲：乙"; py "（他轉身"; py "離開"]
  = [py "甲：乙"] ++ [py "（他轉身離開"].
Proof.
  apply (merge_flushes_open_buffer
           [py "甲：乙"; py "（他轉身"; py "離開"] [py "甲：乙"] (py "（他轉身離開")).
  reflexivity.
Defined.

End Merger.

(** * The annotation stripper *)

Section Stripper.

Lemma contains_single c s : contains [c] s = false <-> c ∉ s.
Proof.
  induction s as [|x r IH]; cbn [contains startswith].
  - split; [intros _; apply not_elem_of_nil | done].
  - rewrite andb_true_r, orb_false_iff, IH, not_elem_of_cons, N.eqb_neq.
    split; intros [? ?]; split; congruence.
Qed.

Lemma span_not_spec c s a b :
  span_not c s = (a, b) -> s = a ++ b /\ c ∉ a.
Proof.
  revert a b. induction s as [|x r IH]; intros a b; cbn [span_not].
  - intros [= <- <-]. split; [done | apply not_elem_of_nil].
  - destruct (x =? c) eqn:E.
    + intros [= <- <-]. split; [done | apply not_elem_of_nil].
    + destruct (span_not c r) as [a' b'] eqn:E'. intros [= <- <-].
      destruct (IH a' b' eq_refl) as [-> Hn]. split; [done|].
      apply not_elem_of_cons. apply N.eqb_neq in E. split; congruence.
Qed.

Lemma RUBY_RE_match_head s base rest :
  RUBY_RE_match s = Some (base, rest) -> exists r, s = backslash :: r.
Proof.
  unfold RUBY_RE_match. destruct (startswith s ruby_open) eqn:E; [|done].
  intros _. apply startswith_prefix in E. rewrite E. by eexists.
Qed.

Lemma RUBY_RE_match_rest s base rest :
  RUBY_RE_match s = Some (base, rest) ->
  exists pre, s = pre ++ rest /\ (0 < length pre)%nat.
Proof.
  unfold RUBY_RE_match. destruct (startswith s ruby_open) eqn:E; [|done].
  apply startswith_prefix in E.
  destruct (span_not rbrace (drop (length ruby_open) s)) as [b r1] eqn:E1.
  apply span_not_spec in E1 as [E1 _].
  destruct r1 as [|c1 [|c2 r2]]; try done.
  destruct ((c1 =? rbrace) && (c2 =? lbrace)); [|done].
  destruct (span_not rbrace r2) as [x r3] eqn:E2.
  apply span_not_spec in E2 as [E2 _]. simpl.
  destruct r3 as [|c3 r4]; [done|]. destruct (c3 =? rbrace); [|done].
  intros [= <- <-].
  exists (ruby_open ++ b ++ [c1; c2] ++ x ++ [c3]). split.
  - rewrite E at 1. rewrite E1, E2. by rewrite <- !app_assoc.
  - simpl. lia.
Qed.

Lemma RUBY_RE_match_nil : RUBY_RE_match [] = None.
Proof. reflexivity. Qed.

Lemma RUBY_RE_sub_no_span fuel s :
  has_span s = false -> RUBY_RE_sub fuel s = s.
Proof.
  revert s. induction fuel as [|f IH]; intros s H; [done|].
  cbn [RUBY_RE_sub]. destruct s as [|c r]; cbn [has_span] in H.
  - by rewrite RUBY_RE_match_nil.
  - destruct (RUBY_RE_match (c :: r)); [done|]. f_equal. by apply IH.
Qed.

(** The substitution never runs out of steps: any budget of at least
    [length s] gives the same text, so [plain_text] follows the scan of
    [RUBY_RE.sub] to the end of the string. *)
Lemma RUBY_RE_sub_fuel f1 f2 s :
  (length s <= f1)%nat -> (length s <= f2)%nat ->
  RUBY_RE_sub f1 s = RUBY_RE_sub f2 s.
Proof.
  revert f2 s. induction f1 as [|f1 IH]; intros f2 s H1 H2.
  - destruct s; [|simpl in H1; lia]. by destruct f2.
  - destruct f2 as [|f2].
    { destruct s; [done | simpl in H2; lia]. }
    cbn [RUBY_RE_sub].
    destruct (RUBY_RE_match s) as [[base rest]|] eqn:E.
    + destruct (RUBY_RE_match_rest _ _ _ E) as (pre & Hpre & Hlt).
      apply (f_equal length) in Hpre. rewrite length_app in Hpre.
      f_equal. apply IH; lia.
    + destruct s as [|c r]; [done|]. simpl in H1, H2. f_equal. apply IH; lia.
Qed.

Lemma plain_text_match s base rest :
  RUBY_RE_match s = Some (base, rest) -> plain_text s = base ++ plain_text rest.
Proof.
  intros E. unfold plain_text.
  destruct (RUBY_RE_match_rest _ _ _ E) as (pre & Hpre & Hlt).
  apply (f_equal length) in Hpre. rewrite length_app in Hpre.
  destruct (length s) as [|n] eqn:En; [lia|].
  cbn [RUBY_RE_sub]. rewrite E. f_equal. apply RUBY_RE_sub_fuel; lia.
Qed.

Lemma plain_text_copy c r :
  RUBY_RE_match (c :: r) = None -> plain_text (c :: r) = c :: plain_text r.
Proof. intros E. unfold plain_text. cbn [length RUBY_RE_sub]. by rewrite E. Qed.

(** C8: a string with no annotation span is its own plain text. *)
Theorem plain_text_plain (s : pystr) :
  has_span s = false -> plain_text s = s.
Proof. apply RUBY_RE_sub_no_span. Qed.

Lemma plain_text_plain_witness : plain_text (py "外景：\ruby{海邊") = py "外景：\ruby{海邊".
Proof. apply plain_text_plain. reflexivity. Defined.

Lemma spans_flat_suffix pre s : spans_flat (pre ++ s) = true -> spans_flat s = true.
Proof.
  induction pre as [|c pre IH]; [done|].
  cbn [app spans_flat]. intros [_ H]%andb_true_iff. by apply IH.
Qed.

Lemma RUBY_RE_sub_flat fuel s :
  (length s <= fuel)%nat -> spans_flat s = true ->
  backslash ∉ RUBY_RE_sub fuel s.
Proof.
  revert s. induction fuel as [|f IH]; intros s Hlen Hflat.
  - destruct s; [apply not_elem_of_nil | simpl in Hlen; lia].
  - cbn [RUBY_RE_sub]. destruct s as [|c r].
    + rewrite RUBY_RE_match_nil. apply not_elem_of_nil.
    + pose proof Hflat as Hflat0.
      cbn [spans_flat] in Hflat. apply andb_true_iff in Hflat as [Hc Hr].
      destruct (RUBY_RE_match (c :: r)) as [[base rest]|] eqn:E.
      * destruct (RUBY_RE_match_head _ _ _ E) as [r' [= -> <-]].
        rewrite N.eqb_refl in Hc. apply negb_true_iff, contains_single in Hc.
        destruct (RUBY_RE_match_rest _ _ _ E) as (pre & Hpre & Hlt).
        rewrite not_elem_of_app. split; [done|]. apply IH.
        -- apply (f_equal length) in Hpre. rewrite length_app in Hpre.
           simpl in *. lia.
        -- rewrite Hpre in Hflat0. by apply spans_flat_suffix in Hflat0.
      * destruct (c =? backslash) eqn:Ec; [done|].
        apply not_elem_of_cons. split.
        -- apply N.eqb_neq in Ec. congruence.
        -- apply IH; [simpl in Hlen; lia | done].
Qed.

Lemma has_span_backslash s : has_span s = true -> backslash ∈ s.
Proof.
  induction s as [|c r IH]; cbn [has_span].
  - by rewrite RUBY_RE_match_nil.
  - destruct (RUBY_RE_match (c :: r)) as [[base rest]|] eqn:E.
    + intros _. destruct (RUBY_RE_match_head _ _ _ E) as [r' [= -> <-]].
      apply list_elem_of_here.
    + intros H. apply list_elem_of_further. by apply IH.
Qed.

Lemma ruby_token_backslash s : contains ruby_token s = true -> backslash ∈ s.
Proof.
  induction s as [|c r IH]; cbn [contains]; [done|].
  intros [H|H]%orb_true_iff.
  - apply startswith_prefix in H. injection H as -> _. apply list_elem_of_here.
  - apply list_elem_of_further. by apply IH.
Qed.

(** On a line whose backslashes all open spans with backslash-free bases
    the plain text holds no backslash at all. *)
Lemma plain_text_flat s :
  spans_flat s = true -> backslash ∉ plain_text s.
Proof. intros H. by apply RUBY_RE_sub_flat. Qed.

(** C7, as stated, fails: with nested spans every [\ruby] token opens a
    well-formed span, yet one pass leaves a span in the plain text. *)
Lemma plain_text_leaves_span :
  spans_balanced (py "\ruby{\ruby{a}{b}}{c}") = true /\
  plain_text (py "\ruby{\ruby{a}{b}}{c}") = py "\ruby{a}{c}" /\
  has_span (plain_text (py "\ruby{\ruby{a}{b}}{c}")) = true /\
  contains ruby_token (plain_text (py "\ruby{\ruby{a}{b}}{c}")) = true.
Proof. repeat split; reflexivity. Qed.

End Stripper.

(** * The classifier *)

Section Classifier.

Lemma classify_line_blank st raw :
  blank raw = true ->
  classify_line st raw
  = {| blocks := blocks st; last_dialogue := last_dialogue st; prev_blank := true |}.
Proof.
  unfold blank, classify_line. by destruct (strip raw).
Qed.

Lemma classify_line_noise st raw :
  noise_line raw = true -> classify_line st raw = st.
Proof.
  unfold noise_line, blank, classify_line.
  destruct (strip raw) eqn:E; [done|]. simpl. by intros ->.
Qed.

Lemma classify_line_content st raw :
  blank raw = false -> noise_line raw = false ->
  classify_line st raw
  = match split1 fw_colon (strip raw) with
    | Some (name_raw, text_raw) => speaker_line st name_raw text_raw
    | None => other_line st (strip raw)
    end.
Proof.
  unfold noise_line, blank, classify_line.
  destruct (strip raw) eqn:E; [done|]. simpl. by intros _ ->.
Qed.

Lemma split1_single_first c s a b : split1 [c] s = Some (a, b) -> c ∉ a.
Proof.
  revert a b. induction s as [|x r IH]; intros a b; cbn [split1 startswith]; [done|].
  rewrite andb_true_r. destruct (x =? c) eqn:E.
  - intros [= <- <-]. apply not_elem_of_nil.
  - destruct (split1 [c] r) as [[a' b']|] eqn:E'; [|done]. intros [= <- <-].
    apply not_elem_of_cons. apply N.eqb_neq in E. split; [congruence|].
    by eapply IH.
Qed.

Lemma plain_text_nil : plain_text [] = [].
Proof. reflexivity. Qed.

Lemma stage_name_nonempty name : plain_text name ∈ STAGE_NAMES -> name <> [].
Proof.
  intros H ->. rewrite plain_text_nil in H. revert H.
  unfold STAGE_NAMES. rewrite !elem_of_union, !elem_of_singleton.
  intros [[H|H]|H]; vm_compute in H; discriminate.
Qed.

(** The re-joined stage text of a keyword line needs no trimming: it starts
    with the first character of the stripped name and ends with the
    separator or the last character of the stripped text. *)
Lemma rejoin_strip_fixed name text :
  strip name <> [] ->
  strip (strip name ++ fw_colon ++ strip text) = strip name ++ fw_colon ++ strip text.
Proof.
  intros Hne. destruct (strip name) as [|c r] eqn:En; [done|].
  pose proof (strip_head _ _ _ En) as Hc.
  destruct (strip_last text) as [->|(pre & d & -> & Hd)].
  - rewrite app_nil_r. cbn [app].
    apply (strip_fixed c _ (c :: r) 65306); [done | reflexivity | done].
  - cbn [app].
    apply (strip_fixed c _ (c :: r ++ fw_colon ++ pre) d); [done | done |].
    cbn [app]. by rewrite <- !app_assoc.
Qed.

Lemma speaker_line_stage st name text :
  plain_text (strip name) ∈ STAGE_NAMES ->
  speaker_line st name text
  = push_stage st (strip name ++ fw_colon ++ strip text).
Proof.
  intros H. unfold speaker_line. rewrite bool_decide_eq_true_2 by done.
  rewrite rejoin_strip_fixed; [done|]. by apply stage_name_nonempty.
Qed.

Lemma speaker_line_dialogue st name text :
  plain_text (strip name) ∉ STAGE_NAMES ->
  speaker_line st name text
  = {| blocks := blocks st ++ [DialogueBlock (fst (split_note (strip name)))
                                             (snd (split_note (strip name)))
                                             [strip text]];
       last_dialogue := Some (length (blocks st));
       prev_blank := false |}.
Proof.
  intros H. unfold speaker_line. rewrite bool_decide_eq_false_2 by done.
  by destruct (split_note (strip name)).
Qed.

(** C1, as the code has it: only the full-width colon separates a speaker
    from the text.  A content line that holds one is split at the first
    one and becomes a stage-keyword block or a dialogue header; a content
    line that holds none is never split, whatever half-width colons it
    has, and takes the non-dialogue path. *)
Theorem fullwidth_colon_splits (st : classifier) (raw : pystr) :
  blank raw = false -> noise_line raw = false ->
  (contains fw_colon (strip raw) = true ->
   exists name text b,
     strip raw = name ++ fw_colon ++ text /\
     contains fw_colon name = false /\
     blocks (classify_line st raw) = blocks st ++ [b] /\
     (((plain_text (strip name) ∈ STAGE_NAMES) /\
       b = StageBlock (strip name ++ fw_colon ++ strip text)) \/
      ((plain_text (strip name) ∉ STAGE_NAMES) /\
       b = DialogueBlock (fst (split_note (strip name)))
                         (snd (split_note (strip name))) [strip text]))) /\
  (contains fw_colon (strip raw) = false ->
   classify_line st raw = other_line st (strip raw)).
Proof.
  intros Hb Hn. rewrite (classify_line_content _ _ Hb Hn). split.
  - intros [[name text] E]%split1_contains. rewrite E.
    destruct (decide (plain_text (strip name) ∈ STAGE_NAMES)) as [Hs|Hs].
    + exists name, text, (StageBlock (strip name ++ fw_colon ++ strip text)).
      rewrite (speaker_line_stage _ _ _ Hs).
      split; [by apply split1_parts|].
      split; [by eapply contains_single, split1_single_first|].
      split; [done|]. by left.
    + eexists name, text, _. rewrite (speaker_line_dialogue _ _ _ Hs).
      split; [by apply split1_parts|].
      split; [by eapply contains_single, split1_single_first|].
      split; [done|]. by right.
  - intros H. destruct (split1 fw_colon (strip raw)) as [[n t]|] eqn:E; [|done].
    assert (is_Some (split1 fw_colon (strip raw))) as Hs by (by eexists).
    apply split1_contains in Hs. congruence.
Qed.

Lemma fullwidth_colon_splits_witness :
  classify_line init (py "乙:你好") = other_line init (strip (py "乙:你好")).
Proof.
  apply (fullwidth_colon_splits init (py "乙:你好")); reflexivity.
Defined.

(** C1, as stated, fails: a line whose only colon is half-width is not a
    speaker line; here it is appended to the open dialogue. *)
Lemma halfwidth_colon_falls_through :
  contains (py ":") (strip (py "乙:你好")) = true /\
  blank (py "乙:你好") = false /\ noise_line (py "乙:你好") = false /\
  blocks (classify [py "甲：早"; py "乙:你好"])
  = [DialogueBlock (py "甲") None [py "早"; py "乙:你好"]].
Proof. repeat split; reflexivity. Qed.

(** C3: a speaker line whose name is a stage keyword becomes a stage block
    holding the name, the separator and the text, and closes the current
    dialogue. *)
Theorem stage_keyword_line :
  (forall (st : classifier) (raw name text : pystr),
      blank raw = false -> noise_line raw = false ->
      split1 fw_colon (strip raw) = Some (name, text) ->
      plain_text (strip name) ∈ STAGE_NAMES ->
      classify_line st raw
      = {| blocks := blocks st ++ [StageBlock (strip name ++ fw_colon ++ strip text)];
           last_dialogue := None;
           prev_blank := false |}) /\
  format_script (py "外景：海邊") = py "\stage{外景：海邊}" ++ nl.
Proof.
  split; [|by vm_compute].
  intros st raw name text Hb Hn E Hs.
  rewrite (classify_line_content _ _ Hb Hn), E.
  by rewrite (speaker_line_stage _ _ _ Hs).
Qed.

Lemma stage_keyword_line_witness :
  classify_line init (py " 內景：\ruby{茶}{caa4}樓 ")
  = {| blocks := [StageBlock (py "內景：\ruby{茶}{caa4}樓")];
       last_dialogue := None;
       prev_blank := false |}.
Proof.
  apply (proj1 stage_keyword_line init (py " 內景：\ruby{茶}{caa4}樓 ")
               (py "內景") (py "\ruby{茶}{caa4}樓")); reflexivity.
Defined.

Lemma skipped_lines_fold mid st :
  Forall (fun r => blank r = true \/ noise_line r = true) mid ->
  fold_left classify_line mid st
  = {| blocks := blocks st;
       last_dialogue := last_dialogue st;
       prev_blank := prev_blank st || existsb blank mid |}.
Proof.
  intros H. revert st. induction H as [|r mid Hr _ IH]; intros st.
  - simpl. rewrite orb_false_r. by destruct st.
  - cbn [fold_left existsb]. rewrite IH. destruct Hr as [Hr|Hr].
    + rewrite (classify_line_blank _ _ Hr), Hr. simpl.
      by rewrite orb_true_r.
    + rewrite (classify_line_noise _ _ Hr).
      unfold noise_line in Hr. apply andb_true_iff in Hr as [Hr _].
      apply negb_true_iff in Hr. rewrite Hr. by rewrite orb_false_l.
Qed.

Lemma existsb_blank mid :
  Exists (fun r => blank r = true) mid -> existsb blank mid = true.
Proof.
  induction 1 as [r mid Hr|r mid _ IH]; simpl.
  - by rewrite Hr.
  - by rewrite IH, orb_true_r.
Qed.

Lemma content_after_blank st l :
  prev_blank st = true -> blank l = false -> noise_line l = false ->
  exists b, blocks (classify_line st l) = blocks st ++ [b] /\
            (is_stage b = true \/ exists c n t, b = DialogueBlock c n [t]).
Proof.
  intros Hp Hb Hn. rewrite (classify_line_content _ _ Hb Hn).
  destruct (split1 fw_colon (strip l)) as [[name text]|].
  - unfold speaker_line.
    destruct (bool_decide (plain_text (strip name) ∈ STAGE_NAMES)).
    + eexists. split; [done|]. by left.
    + destruct (split_note (strip name)) as [c n].
      eexists. split; [done|]. right. by eexists _, _, _.
  - unfold other_line. rewrite Hp.
    destruct (opens_paren (strip l) || closes_paren (strip l)).
    + eexists. split; [done|]. by left.
    + destruct (last_dialogue st); simpl; eexists; (split; [done|]); by left.
Qed.

(** C2: after a blank line, the next content line is never appended to an
    earlier dialogue; the blocks built so far are kept as they are and the
    line opens one new block, a stage block or a dialogue header.  Noise
    lines in between do not restore the continuation. *)
Theorem blank_ends_continuation (pre mid : list pystr) (l : pystr) :
  Forall (fun r => blank r = true \/ noise_line r = true) mid ->
  Exists (fun r => blank r = true) mid ->
  blank l = false -> noise_line l = false ->
  exists b,
    blocks (classify (pre ++ mid ++ [l])) = blocks (classify pre) ++ [b] /\
    (is_stage b = true \/ exists c n t, b = DialogueBlock c n [t]).
Proof.
  intros Hmid Hex Hb Hn. unfold classify.
  rewrite !fold_left_app. cbn [fold_left].
  rewrite (skipped_lines_fold _ _ Hmid), (existsb_blank _ Hex), orb_true_r.
  set (st := fold_left classify_line pre init).
  destruct (content_after_blank
              {| blocks := blocks st; last_dialogue := last_dialogue st;
                 prev_blank := true |} l eq_refl Hb Hn) as (b & E & Hk).
  exists b. by split.
Qed.

Lemma blank_ends_continuation_witness :
  exists b,
    blocks (classify ([py "甲：早"] ++ [py "回復：一"; []; py "回復：二"] ++ [py "你好"]))
    = blocks (classify [py "甲：早"]) ++ [b] /\
    (is_stage b = true \/ exists c n t, b = DialogueBlock c n [t]).
Proof.
  apply (blank_ends_continuation
           [py "甲：早"] [py "回復：一"; []; py "回復：二"] (py "你好")).
  - repeat constructor; (by left) || (by right).
  - apply Exists_cons_tl, Exists_cons_hd. reflexivity.
  - reflexivity.
  - reflexivity.
Defined.

(** What one iteration does to [blocks]: nothing, one new block at the
    end, or one more line in the block [last_dialogue] refers to. *)
Lemma classify_line_blocks st l :
  blocks (classify_line st l) = blocks st \/
  (exists b, blocks (classify_line st l) = blocks st ++ [b] /\
             dialogue_lines b <> Some []) \/
  (exists i, last_dialogue st = Some i /\
             blocks (classify_line st l) = alter (append_line (strip l)) i (blocks st)).
Proof.
  destruct (blank l) eqn:Hb.
  { left. by rewrite classify_line_blank. }
  destruct (noise_line l) eqn:Hn.
  { left. by rewrite classify_line_noise. }
  rewrite (classify_line_content _ _ Hb Hn).
  destruct (split1 fw_colon (strip l)) as [[name text]|].
  - right; left. unfold speaker_line.
    destruct (bool_decide (plain_text (strip name) ∈ STAGE_NAMES)).
    + by eexists.
    + destruct (split_note (strip name)). by eexists.
  - unfold other_line.
    destruct (opens_paren (strip l) || closes_paren (strip l)).
    { right; left. by eexists. }
    destruct (last_dialogue st) as [i|]; [|right; left; by eexists].
    destruct (prev_blank st); simpl; [right; left; by eexists|].
    right; right. by exists i.
Qed.

Lemma append_line_nonempty s b :
  dialogue_lines b <> Some [] -> dialogue_lines (append_line s b) <> Some [].
Proof.
  destruct b as [t|c n ls]; simpl; [done|].
  intros _ [= H]. by destruct ls.
Qed.

Lemma classify_fold_nonempty lines st :
  Forall (fun b => dialogue_lines b <> Some []) (blocks st) ->
  Forall (fun b => dialogue_lines b <> Some [])
         (blocks (fold_left classify_line lines st)).
Proof.
  revert st. induction lines as [|l lines IH]; intros st H; [done|].
  cbn [fold_left]. apply IH.
  destruct (classify_line_blocks st l) as [->|[(b & -> & Hb)|(i & _ & ->)]].
  - done.
  - apply Forall_app. split; [done|]. by constructor.
  - apply Forall_alter; [done|]. intros x _. apply append_line_nonempty.
Qed.

Lemma classify_line_grows st l i c n ls :
  blocks st !! i = Some (DialogueBlock c n ls) ->
  exists more,
    blocks (classify_line st l) !! i = Some (DialogueBlock c n (ls ++ more)).
Proof.
  intros Hi.
  destruct (classify_line_blocks st l) as [->|[(b & -> & Hb)|(j & _ & ->)]].
  - exists []. by rewrite app_nil_r.
  - exists []. rewrite app_nil_r, lookup_app_l; [done|].
    by eapply lookup_lt_Some.
  - destruct (decide (j = i)) as [->|Hne].
    + exists [strip l]. by rewrite list_lookup_alter_eq, Hi.
    + exists []. by rewrite app_nil_r, list_lookup_alter_ne.
Qed.

(** C4: every dialogue block the classifier holds has at least one line.
    A dialogue block is created with the text after the separator as its
    only line, and an iteration only ever appends to the lines of a block
    that exists. *)
Theorem dialogue_lines_nonempty :
  (forall merged : list pystr,
      Forall (fun b => dialogue_lines b <> Some []) (blocks (classify merged))) /\
  (forall (st : classifier) (name text : pystr),
      plain_text (strip name) ∉ STAGE_NAMES ->
      exists c n,
        blocks (speaker_line st name text)
        = blocks st ++ [DialogueBlock c n [strip text]]) /\
  (forall (st : classifier) (l : pystr) (i : nat) c n ls,
      blocks st !! i = Some (DialogueBlock c n ls) ->
      exists more,
        blocks (classify_line st l) !! i = Some (DialogueBlock c n (ls ++ more))).
Proof.
  split; [|split].
  - intros merged. apply classify_fold_nonempty. constructor.
  - intros st name text H. rewrite (speaker_line_dialogue _ _ _ H).
    by eexists _, _.
  - apply classify_line_grows.
Qed.

Lemma dialogue_lines_nonempty_witness :
  exists more,
    blocks (classify_line (classify [py "甲：早"]) (py "你好")) !! 0%nat
    = Some (DialogueBlock (py "甲") None ([py "早"] ++ more)).
Proof.
  apply (proj2 (proj2 dialogue_lines_nonempty) (classify [py "甲：早"]) (py "你好")).
  reflexivity.
Defined.

(** The reference kept in [last_dialogue] always denotes the last block,
    and that block is a dialogue: the index stands for the dict itself. *)
Lemma last_dialogue_is_last merged i :
  last_dialogue (classify merged) = Some i ->
  exists pre c n ls,
    blocks (classify merged) = pre ++ [DialogueBlock c n ls] /\ i = length pre.
Proof.
  revert i. unfold classify.
  induction merged as [|l merged IH] using rev_ind; intros i; [done|].
  rewrite fold_left_app. cbn [fold_left].
  set (st := fold_left classify_line merged init) in *.
  destruct (blank l) eqn:Hb.
  { rewrite classify_line_blank by done. apply IH. }
  destruct (noise_line l) eqn:Hn.
  { rewrite classify_line_noise by done. apply IH. }
  rewrite (classify_line_content _ _ Hb Hn).
  destruct (split1 fw_colon (strip l)) as [[name text]|].
  - unfold speaker_line.
    destruct (bool_decide (plain_text (strip name) ∈ STAGE_NAMES)); [done|].
    destruct (split_note (strip name)) as [c n]. simpl.
    intros [= <-]. by eexists _, _, _, _.
  - unfold other_line.
    destruct (opens_paren (strip l) || closes_paren (strip l)); [done|].
    destruct (last_dialogue st) as [j|] eqn:Ej; [|done].
    destruct (prev_blank st); [done|]. simpl. intros [= <-].
    destruct (IH j eq_refl) as (pre & c & n & ls & -> & ->).
    exists pre, c, n, (ls ++ [strip l]). split; [|done].
    replace (length pre) with (length pre + 0)%nat by lia.
    by rewrite alter_app_r.
Qed.

End Classifier.

(** * The serializer *)

Section Serializer.

Lemma emit_block_template out b : emit_block out b = out ++ block_template b.
Proof.
  destruct b as [t|c [[|x r]|] ls]; unfold emit_block, block_template;
    by rewrite <- ?app_assoc.
Qed.

Lemma emit_blocks_templates bs out :
  fold_left emit_block bs out = out ++ concat (map block_template bs).
Proof.
  revert out. induction bs as [|b bs IH]; intros out; simpl.
  - by rewrite app_nil_r.
  - by rewrite IH, emit_block_template, <- app_assoc.
Qed.

Lemma serialize_templates bs :
  serialize bs = rstrip (join nl (concat (map block_template bs))) ++ nl.
Proof. unfold serialize. by rewrite emit_blocks_templates. Qed.

(** C9: a stage block is rendered as its [\stage] line and a blank line, a
    dialogue block by its template; the output is the newline-join of the
    rendered lines without its trailing whitespace, then one newline, so
    it ends in a newline that no whitespace precedes. *)
Theorem format_script_output :
  (forall out text,
      emit_block out (StageBlock text)
      = out ++ [py "\stage{" ++ text ++ py "}"; []]) /\
  (forall out b, emit_block out b = out ++ block_template b) /\
  (forall text : pystr,
      format_script text
      = rstrip (join nl (concat (map block_template
                  (blocks (classify (merge_parenthetical_lines (splitlines text)))))))
        ++ nl) /\
  (forall text : pystr,
      exists body,
        format_script text = body ++ [10] /\
        (body = [] \/ exists pre c, body = pre ++ [c] /\ isspace c = false)).
Proof.
  split; [|split; [|split]].
  - intros out text. by rewrite emit_block_template.
  - apply emit_block_template.
  - intros text. apply serialize_templates.
  - intros text. unfold format_script, serialize.
    eexists. split; [done|]. apply rstrip_last.
Qed.

End Serializer.

(** * Empty notes and empty output *)

Section EmptyCases.

Lemma slice_index_nonneg s k :
  (k <= length s)%nat -> slice_index s (Z.of_nat k) = k.
Proof.
  intros H. unfold slice_index.
  destruct (Z.ltb_spec (Z.of_nat k) 0); lia.
Qed.

Lemma slice_index_minus1 s : slice_index s (-1) = (length s - 1)%nat.
Proof. unfold slice_index. change (-1 <? 0)%Z with true. cbv iota. lia. Qed.

Lemma slice_to_head head rest :
  slice_to (head ++ rest) (Z.of_nat (length head)) = head.
Proof.
  unfold slice_to. rewrite slice_index_nonneg.
  - apply take_app_length.
  - rewrite length_app. lia.
Qed.

Lemma slice_inner head o inner c :
  slice (head ++ [o] ++ inner ++ [c]) (Z.of_nat (length head) + 1) (-1) = inner.
Proof.
  unfold slice. rewrite slice_index_minus1.
  replace (Z.of_nat (length head) + 1)%Z with (Z.of_nat (length (head ++ [o])))
    by (rewrite length_app; simpl; lia).
  rewrite slice_index_nonneg by (rewrite !length_app; simpl; lia).
  rewrite (app_assoc head [o]), drop_app_length.
  rewrite !length_app. simpl.
  replace (length head + 1 + (length inner + 1) - 1 - (length head + 1))%nat
    with (length inner) by lia.
  apply take_app_length.
Qed.

Lemma rfind_single_absent o s : o ∉ s -> rfind [o] s = (-1)%Z.
Proof.
  induction s as [|c r IH]; [done|].
  intros [Hc Hr]%not_elem_of_cons. cbn [rfind startswith].
  rewrite (IH Hr). change (0 <=? -1)%Z with false. cbv iota.
  rewrite andb_true_r. apply not_eq_sym, N.eqb_neq in Hc. by rewrite Hc.
Qed.

Lemma rfind_single_last head o tail :
  o ∉ tail -> rfind [o] (head ++ o :: tail) = Z.of_nat (length head).
Proof.
  intros H. induction head as [|c head IH].
  - cbn [app rfind startswith length]. rewrite (rfind_single_absent _ _ H).
    change (0 <=? -1)%Z with false. cbv iota.
    by rewrite N.eqb_refl.
  - cbn [app rfind length]. rewrite IH.
    destruct (Z.leb_spec 0 (Z.of_nat (length head))); lia.
Qed.

Lemma contains_app p a b : contains p (a ++ p ++ b) = true.
Proof.
  induction a as [|c a IH]; cbn [app].
  - destruct (p ++ b) eqn:E; cbn [contains]; rewrite <- E, startswith_app; done.
  - cbn [contains]. by rewrite IH, orb_true_r.
Qed.

Lemma space_not_in inner c :
  Forall (fun x => isspace x = true) inner -> isspace c = false -> c ∉ inner.
Proof.
  intros H Hc Hin. rewrite Forall_forall in H. apply H in Hin. congruence.
Qed.

Lemma split_note_blank o c head inner :
  isspace o = false -> o <> c ->
  Forall (fun x => isspace x = true) inner ->
  contains [o] (head ++ [o] ++ inner ++ [c]) && endswith (head ++ [o] ++ inner ++ [c]) [c]
  = true /\
  strip (slice_to (head ++ [o] ++ inner ++ [c]) (rfind [o] (head ++ [o] ++ inner ++ [c])))
  = strip head /\
  strip (slice (head ++ [o] ++ inner ++ [c])
               (rfind [o] (head ++ [o] ++ inner ++ [c]) + 1) (-1)) = [].
Proof.
  intros Ho Hne Hin.
  assert (Hr : rfind [o] (head ++ [o] ++ inner ++ [c]) = Z.of_nat (length head)).
  { apply rfind_single_last. apply not_elem_of_app. split.
    - by apply space_not_in.
    - apply not_elem_of_cons. split; [done | apply not_elem_of_nil]. }
  rewrite Hr. split; [|split].
  - rewrite contains_app. rewrite !app_assoc. by rewrite endswith_app.
  - by rewrite slice_to_head.
  - rewrite slice_inner. by apply strip_all_space.
Qed.

(** C10: a performance note that is empty or holds only spaces is kept as
    the empty string, and a dialogue block with such a note is rendered
    without a [\stage] line; an input whose merged lines are all blank or
    discarded as noise yields a single newline. *)
Theorem empty_note_and_empty_output :
  (forall head inner : pystr,
      Forall (fun c => isspace c = true) inner ->
      split_note (head ++ fw_open ++ inner ++ fw_close) = (strip head, Some []) /\
      split_note (head ++ hw_open ++ inner ++ hw_close) = (strip head, Some [])) /\
  (forall out c ls,
      emit_block out (DialogueBlock c (Some []) ls)
      = out ++ [py "\charname{" ++ c ++ py "}"; py "\begin{dialogue}"]
            ++ ls ++ [py "\end{dialogue}"; []]) /\
  format_script (py "李四（）：text")
  = join nl [py "\charname{李四}"; py "\begin{dialogue}"; py "text";
             py "\end{dialogue}"] ++ nl /\
  (forall text : pystr,
      Forall (fun r => blank r = true \/ noise_line r = true)
             (merge_parenthetical_lines (splitlines text)) ->
      format_script text = nl).
Proof.
  split; [|split; [|split]].
  - intros head inner Hin. split.
    + destruct (split_note_blank 65288 65289 head inner) as (H1 & H2 & H3);
        [done | done | done |].
      unfold split_note, fw_open, fw_close. by rewrite H1, H2, H3.
    + destruct (split_note_blank 40 41 head inner) as (H1 & H2 & H3);
        [done | done | done |].
      unfold split_note, fw_open, fw_close, hw_open, hw_close.
      replace (endswith (head ++ [40] ++ inner ++ [41]) [65289]) with false.
      * rewrite andb_false_r. by rewrite H1, H2, H3.
      * rewrite !app_assoc. by rewrite endswith_last.
  - intros out c ls. by rewrite emit_block_template.
  - by vm_compute.
  - intros text H. unfold format_script, classify.
    by rewrite (skipped_lines_fold _ _ H).
Qed.

Lemma empty_note_and_empty_output_witness :
  split_note (py "李四" ++ fw_open ++ [32; 12288] ++ fw_close) = (strip (py "李四"), Some [])
  /\ format_script (py "回復：一" ++ nl ++ py "  " ++ nl ++ py "（第1頁 作了第2次修改）") = nl.
Proof.
  split.
  - apply (proj1 empty_note_and_empty_output (py "李四") [32; 12288]).
    repeat constructor.
  - apply (proj2 (proj2 (proj2 empty_note_and_empty_output))).
    repeat constructor; (by left) || (by right).
Defined.

End EmptyCases.

(** * Remarks on the merger and the classifier *)

(** The classifier reads the merged lines.  A blank line that the merger
    takes into an open parenthetical buffer is not a line of its own any
    more, and lines that would each be noise can merge into a line that is
    not. *)
Example blank_inside_buffer :
  merge_parenthetical_lines
    (splitlines (join nl [py "甲：早"; py "(作了第"; []; py "回復：)"; py "你好"]))
  = [py "甲：早"; py "(作了第回復：)"; py "你好"] /\
  blocks (classify [py "甲：早"; py "(作了第回復：)"; py "你好"])
  = [DialogueBlock (py "甲") None [py "早"; py "你好"]].
Proof. split; reflexivity. Qed.

Example noise_lines_merged :
  noise_line (py "(\ruby{a}{作了第") = true /\
  noise_line (py "Admin 在}") = true /\
  format_script (join nl [py "(\ruby{a}{作了第"; py "Admin 在}"])
  = py "\stage{\ruby{a}{作了第Admin 在}}" ++ nl.
Proof. repeat split; reflexivity. Qed.

(** * More on strings *)

Section MoreStrings.

Lemma strip_strip s : strip (strip s) = strip s.
Proof.
  destruct (strip s) as [|c r] eqn:E; [done|].
  destruct (strip_last s) as [E2|(pre & d & E2 & Hd)]; [congruence|].
  rewrite E in E2.
  by apply (strip_fixed c r pre d); [eapply strip_head| |].
Qed.

Lemma trimmed_app a b : strip a = a -> strip b = b -> strip (a ++ b) = a ++ b.
Proof.
  intros Ha Hb. destruct a as [|c r]; [done|].
  destruct (strip_last b) as [E|(pre & d & E & Hd)]; rewrite Hb in E.
  - subst b. by rewrite app_nil_r.
  - cbn [app]. apply (strip_fixed c _ ((c :: r) ++ pre) d).
    + by eapply strip_head.
    + done.
    + rewrite E. cbn [app]. by rewrite <- app_assoc.
Qed.

Lemma dropwhile_dropwhile p s : dropwhile p (dropwhile p s) = dropwhile p s.
Proof.
  destruct (dropwhile_head p s) as [->|(c & r & -> & Hc)]; [done|].
  simpl. by rewrite Hc.
Qed.

Lemma rstrip_nl_rstrip_nl s : rstrip_nl (rstrip_nl s) = rstrip_nl s.
Proof.
  unfold rstrip_nl. by rewrite rev_involutive, dropwhile_dropwhile.
Qed.

Lemma rstrip_nl_trimmed s : strip s = s -> rstrip_nl s = s.
Proof.
  intros H. destruct (strip_last s) as [E|(pre & d & E & Hd)]; rewrite H in E.
  - by subst s.
  - subst s. unfold rstrip_nl. rewrite rev_unit. cbn [dropwhile].
    destruct (10 =? d) eqn:E10.
    + apply N.eqb_eq in E10. by subst d.
    + change (d :: rev pre) with (rev [d] ++ rev pre).
      by rewrite <- rev_app_distr, rev_involutive.
Qed.

End MoreStrings.

(** * More on the line merger *)

Section MoreMerger.

(** What the loop keeps: a line already emitted is free of trailing
    newlines and would not open the buffer; an active buffer is trimmed,
    opens with a bracket and does not close; and the stripped text seen so
    far is the stripped text held. *)
Lemma merge_loop_inv lines :
  Forall (fun l => opens_buffer l = false /\ rstrip_nl l = l) (fst (merge_loop lines)) /\
  (forall b, snd (merge_loop lines) = Some b ->
             strip b = b /\ opens_paren b = true /\ closes_paren b = false) /\
  concat (map strip (fst (merge_loop lines))) ++ default [] (snd (merge_loop lines))
  = concat (map stripped lines).
Proof.
  induction lines as [|x lines IH] using rev_ind.
  { split; [constructor|]. split; done. }
  rewrite merge_loop_snoc, map_app, concat_app.
  destruct IH as (Hm & Hb & Ht). rewrite <- Ht. clear Ht.
  destruct (merge_loop lines) as [m [b|]]; unfold merge_step; simpl in *.
  - destruct (Hb b eq_refl) as (Hs & Ho & Hc).
    assert (Hs' : strip (b ++ strip (rstrip_nl x)) = b ++ strip (rstrip_nl x)).
    { apply trimmed_app; [done | apply strip_strip]. }
    assert (Ho' : opens_paren (b ++ strip (rstrip_nl x)) = true).
    { revert Ho. unfold opens_paren, fw_open, hw_open.
      destruct b as [|c r]; [done|]. by cbn [app startswith]. }
    unfold stripped.
    destruct (closes_paren (b ++ strip (rstrip_nl x))) eqn:Hc'; simpl.
    + split; [|split; [done|]].
      * apply Forall_app. split; [done|]. constructor; [|done].
        assert (Hn : rstrip_nl (b ++ strip (rstrip_nl x)) = b ++ strip (rstrip_nl x))
          by (by apply rstrip_nl_trimmed).
        split; [|done]. unfold opens_buffer, stripped.
        by rewrite Hn, Hs', Hc', andb_false_r.
      * rewrite map_app, concat_app. simpl.
        by rewrite Hs', !app_nil_r, <- app_assoc.
    + split; [done|]. split.
      * by intros ? [= <-].
      * by rewrite !app_nil_r, <- app_assoc.
  - unfold stripped.
    destruct (opens_paren (strip (rstrip_nl x))
              && negb (closes_paren (strip (rstrip_nl x)))) eqn:Hop; simpl.
    + split; [done|]. split; [|by rewrite !app_nil_r].
      intros ? [= <-]. apply andb_true_iff in Hop as [Ho Hc].
      apply negb_true_iff in Hc. by rewrite strip_strip.
    + split; [|split; [done|]].
      * apply Forall_app. split; [done|]. constructor; [|done].
        split; [|apply rstrip_nl_rstrip_nl].
        unfold opens_buffer, stripped. by rewrite rstrip_nl_rstrip_nl.
      * rewrite map_app, concat_app. simpl. by rewrite !app_nil_r.
Qed.

Lemma merge_settled body :
  Forall (fun l => opens_buffer l = false /\ rstrip_nl l = l) body ->
  merge_loop body = (body, None).
Proof.
  intros H. unfold merge_loop. rewrite merge_fold_quiet.
  - simpl. f_equal. induction H as [|l body [_ Hl] _ IH]; [done|].
    simpl. by rewrite Hl, IH.
  - eapply Forall_impl; [done|]. by intros l [? _].
Qed.

(** X1: when no line opens the parenthetical buffer, the merger returns
    the lines themselves, without their trailing newlines. *)
Theorem merge_quiet_lines (lines : list pystr) :
  Forall (fun l => opens_buffer l = false) lines ->
  merge_parenthetical_lines lines = map rstrip_nl lines.
Proof.
  intros H. unfold merge_parenthetical_lines, merge_loop.
  by rewrite (merge_fold_quiet _ _ H).
Qed.

Lemma merge_quiet_lines_witness :
  merge_parenthetical_lines [py "  甲：早 "; py "(笑)"; []]
  = map rstrip_nl [py "  甲：早 "; py "(笑)"; []].
Proof. apply merge_quiet_lines. repeat constructor. Defined.

(** X2: after merging, only the last line can be an unterminated
    parenthetical: every earlier line would not open the buffer again. *)
Theorem merge_open_only_last (lines : list pystr) (i : nat) (l : pystr) :
  merge_parenthetical_lines lines !! i = Some l ->
  (S i < length (merge_parenthetical_lines lines))%nat ->
  opens_buffer l = false.
Proof.
  destruct (merge_loop_inv lines) as (Hm & _ & _).
  unfold merge_parenthetical_lines.
  destruct (merge_loop lines) as [m [b|]]; simpl in *; intros Hi Hlt.
  - rewrite length_app in Hlt. simpl in Hlt.
    rewrite lookup_app_l in Hi by lia.
    rewrite Forall_lookup in Hm. by destruct (Hm i l Hi).
  - rewrite Forall_lookup in Hm. by destruct (Hm i l Hi).
Qed.

Lemma merge_open_only_last_witness :
  opens_buffer (py "（他轉身離開）") = false.
Proof.
  apply (merge_open_only_last
           [py "（他轉身"; py "離開）"; py "（又"] 0 (py "（他轉身離開）"));
    [reflexivity | vm_compute; lia].
Defined.

(** X3: merging twice is merging once. *)
Theorem merge_idempotent (lines : list pystr) :
  merge_parenthetical_lines (merge_parenthetical_lines lines)
  = merge_parenthetical_lines lines.
Proof.
  destruct (merge_loop_inv lines) as (Hm & Hb & _).
  unfold merge_parenthetical_lines at 2 3.
  destruct (merge_loop lines) as [m [b|]]; simpl in *.
  - destruct (Hb b eq_refl) as (Hs & Ho & Hc).
    unfold merge_parenthetical_lines.
    rewrite merge_loop_snoc, (merge_settled _ Hm). unfold merge_step.
    by rewrite (rstrip_nl_trimmed _ Hs), Hs, Ho, Hc.
  - unfold merge_parenthetical_lines. by rewrite (merge_settled _ Hm).
Qed.

(** X4: the merger keeps all the text: the stripped merged lines, put end
    to end, are the stripped input lines put end to end. *)
Theorem merge_keeps_text (lines : list pystr) :
  concat (map strip (merge_parenthetical_lines lines))
  = concat (map stripped lines).
Proof.
  destruct (merge_loop_inv lines) as (_ & Hb & Ht).
  unfold merge_parenthetical_lines.
  destruct (merge_loop lines) as [m [b|]]; simpl in *.
  - destruct (Hb b eq_refl) as (Hs & _ & _).
    rewrite map_app, concat_app. simpl. by rewrite Hs, app_nil_r.
  - by rewrite app_nil_r in Ht.
Qed.

End MoreMerger.

(** * More on the annotation stripper *)

Section MoreStripper.

Lemma span_not_complete c a b :
  c ∉ a -> span_not c (a ++ c :: b) = (a, c :: b).
Proof.
  induction a as [|x a IH]; intros H; cbn [app span_not].
  - by rewrite N.eqb_refl.
  - apply not_elem_of_cons in H as [Hx Ha].
    apply not_eq_sym, N.eqb_neq in Hx. by rewrite Hx, (IH Ha).
Qed.

Lemma RUBY_RE_match_shape s base rest :
  RUBY_RE_match s = Some (base, rest) ->
  exists reading,
    s = annotation base reading ++ rest /\ (rbrace ∉ base) /\ (rbrace ∉ reading).
Proof.
  unfold RUBY_RE_match. destruct (startswith s ruby_open) eqn:E; [|done].
  apply startswith_prefix in E.
  destruct (span_not rbrace (drop (length ruby_open) s)) as [b r1] eqn:E1.
  apply span_not_spec in E1 as [E1 Hb].
  destruct r1 as [|c1 [|c2 r2]]; try done.
  destruct ((c1 =? rbrace) && (c2 =? lbrace)) eqn:Ec; [|done].
  apply andb_true_iff in Ec as [->%N.eqb_eq ->%N.eqb_eq].
  destruct (span_not rbrace r2) as [x r3] eqn:E2.
  apply span_not_spec in E2 as [E2 Hx]. simpl.
  destruct r3 as [|c3 r4]; [done|].
  destruct (c3 =? rbrace) eqn:E3; [|done]. apply N.eqb_eq in E3 as ->.
  intros [= <- <-]. exists x. split; [|done].
  rewrite E at 1. rewrite E1, E2. unfold annotation.
  rewrite <- !app_assoc. f_equal. f_equal. cbn [app].
  by rewrite <- app_assoc.
Qed.

Lemma RUBY_RE_match_annotation base reading rest :
  rbrace ∉ base -> rbrace ∉ reading ->
  RUBY_RE_match (annotation base reading ++ rest) = Some (base, rest).
Proof.
  intros Hb Hr. unfold RUBY_RE_match, annotation.
  rewrite <- !app_assoc, startswith_app, drop_app_length.
  cbn [app]. rewrite (span_not_complete _ _ _ Hb).
  rewrite !N.eqb_refl. cbn [andb].
  rewrite (span_not_complete _ _ _ Hr). cbn [snd].
  by rewrite N.eqb_refl.
Qed.

(** X5: the annotation pattern matches at the head of a string exactly
    when the string opens with [\ruby{BASE}{READING}] where neither part
    holds a closing brace; the group is BASE and the scan resumes right
    after the span. *)
Theorem RUBY_RE_match_spans (s base rest : pystr) :
  RUBY_RE_match s = Some (base, rest) <->
  exists reading,
    s = annotation base reading ++ rest /\ (rbrace ∉ base) /\ (rbrace ∉ reading).
Proof.
  split; [apply RUBY_RE_match_shape|].
  intros (reading & -> & Hb & Hr). by apply RUBY_RE_match_annotation.
Qed.

Lemma RUBY_RE_sub_length fuel s :
  (length (RUBY_RE_sub fuel s) <= length s)%nat.
Proof.
  revert s. induction fuel as [|f IH]; intros s; [done|].
  cbn [RUBY_RE_sub].
  destruct (RUBY_RE_match s) as [[base rest]|] eqn:E.
  - destruct (RUBY_RE_match_shape _ _ _ E) as (reading & -> & _).
    specialize (IH rest). unfold annotation.
    rewrite !length_app. simpl. rewrite ?length_app. simpl. lia.
  - destruct s as [|c r]; [done|]. specialize (IH r). simpl. lia.
Qed.

(** X6: the plain text is never longer than the annotated text. *)
Theorem plain_text_length (s : pystr) :
  (length (plain_text s) <= length s)%nat.
Proof. apply RUBY_RE_sub_length. Qed.

Lemma plain_text_prefix p q :
  backslash ∉ p -> plain_text (p ++ q) = p ++ plain_text q.
Proof.
  induction p as [|c p IH]; [done|].
  intros [Hc Hp]%not_elem_of_cons. cbn [app].
  rewrite plain_text_copy, (IH Hp); [done|].
  destruct (RUBY_RE_match (c :: p ++ q)) as [[b r]|] eqn:E; [|done].
  destruct (RUBY_RE_match_head _ _ _ E) as [r' [= -> _]]. done.
Qed.

(** X7: stripping gives back the base text of an annotation and drops its
    reading: plain text before the span is copied, the span becomes its
    base, and the scan goes on after it. *)
Theorem plain_text_annotation (p base reading q : pystr) :
  backslash ∉ p -> rbrace ∉ base -> rbrace ∉ reading ->
  plain_text (p ++ annotation base reading ++ q) = p ++ base ++ plain_text q.
Proof.
  intros Hp Hb Hr. rewrite (plain_text_prefix _ _ Hp). f_equal.
  apply plain_text_match. by apply RUBY_RE_match_annotation.
Qed.

Lemma plain_text_annotation_witness :
  plain_text (py "甲：" ++ annotation (py "海邊") (py "hoi2 bin1") ++ py "見")
  = py "甲：" ++ py "海邊" ++ plain_text (py "見").
Proof.
  apply plain_text_annotation;
    apply (proj1 (contains_single _ _)); reflexivity.
Defined.

(** X8: on a line whose backslashes all open spans with backslash-free
    bases, stripping a second time changes nothing. *)
Theorem plain_text_idempotent (s : pystr) :
  spans_flat s = true -> plain_text (plain_text s) = plain_text s.
Proof.
  intros H. apply RUBY_RE_sub_no_span.
  destruct (has_span (plain_text s)) eqn:E; [|done].
  apply has_span_backslash in E.
  by apply (RUBY_RE_sub_flat (length s) s) in E.
Qed.

Lemma plain_text_idempotent_witness :
  plain_text (plain_text (py "\ruby{海}{hoi2}\ruby{邊}{bin1}"))
  = plain_text (py "\ruby{海}{hoi2}\ruby{邊}{bin1}").
Proof. apply plain_text_idempotent. reflexivity. Defined.

End MoreStripper.

(** * More on the classifier *)

Section MoreClassifier.

Lemma classify_snoc merged l :
  classify (merged ++ [l]) = classify_line (classify merged) l.
Proof. unfold classify. by rewrite fold_left_app. Qed.

(** X9: a noise line is invisible to the classifier wherever it stands,
    and a blank line after a blank line adds nothing. *)
Theorem skipped_lines_transparent (pre post : list pystr) :
  (forall n, noise_line n = true ->
             classify (pre ++ n :: post) = classify (pre ++ post)) /\
  (forall b1 b2, blank b1 = true -> blank b2 = true ->
                 classify (pre ++ b1 :: b2 :: post) = classify (pre ++ b1 :: post)).
Proof.
  unfold classify. split.
  - intros n Hn. rewrite !fold_left_app. cbn [fold_left].
    by rewrite (classify_line_noise _ _ Hn).
  - intros b1 b2 H1 H2. rewrite !fold_left_app. cbn [fold_left].
    by rewrite (classify_line_blank _ _ H1), (classify_line_blank _ _ H2).
Qed.

Lemma skipped_lines_transparent_witness :
  classify ([py "甲：早"] ++ py "回復：一" :: [py "你好"])
  = classify ([py "甲：早"] ++ [py "你好"]).
Proof.
  apply (proj1 (skipped_lines_transparent [py "甲：早"] [py "你好"])).
  reflexivity.
Defined.

Lemma classify_weight merged :
  sum_list_with block_weight (blocks (classify merged))
  = length (List.filter content_line merged).
Proof.
  induction merged as [|l merged IH] using rev_ind; [done|].
  rewrite classify_snoc, List.filter_app, length_app, <- IH.
  unfold content_line. cbn [List.filter].
  destruct (blank l) eqn:Hb.
  { rewrite classify_line_blank by done. simpl. lia. }
  destruct (noise_line l) eqn:Hn.
  { rewrite classify_line_noise by done. simpl. lia. }
  rewrite (classify_line_content _ _ Hb Hn). cbn [negb andb length].
  destruct (split1 fw_colon (strip l)) as [[name text]|].
  - unfold speaker_line.
    destruct (bool_decide (plain_text (strip name) ∈ STAGE_NAMES)).
    + simpl. rewrite sum_list_with_app. simpl. lia.
    + destruct (split_note (strip name)). simpl.
      rewrite sum_list_with_app. simpl. lia.
  - unfold other_line.
    destruct (opens_paren (strip l) || closes_paren (strip l)).
    { simpl. rewrite sum_list_with_app. simpl. lia. }
    destruct (last_dialogue (classify merged)) as [i|] eqn:Ei;
      [|simpl; rewrite sum_list_with_app; simpl; lia].
    destruct (prev_blank (classify merged));
      [simpl; rewrite sum_list_with_app; simpl; lia|].
    destruct (last_dialogue_is_last _ _ Ei) as (pre & c & n & ls & -> & ->).
    simpl. replace (length pre) with (length pre + 0)%nat by lia.
    rewrite alter_app_r, !sum_list_with_app. simpl.
    rewrite length_app. simpl. lia.
Qed.

(** X10: no content line is lost or counted twice: the stage blocks and
    the dialogue lines of the result are as many as the lines that are
    neither blank nor noise. *)
Theorem classify_keeps_content (merged : list pystr) :
  sum_list_with block_weight (blocks (classify merged))
  = length (List.filter content_line merged).
Proof. apply classify_weight. Qed.

Lemma noise_not_blank mid :
  Forall (fun r => noise_line r = true) mid -> existsb blank mid = false.
Proof.
  induction 1 as [|r mid Hr _ IH]; [done|]. simpl. rewrite IH.
  unfold noise_line in Hr. apply andb_true_iff in Hr as [Hr _].
  apply negb_true_iff in Hr. by rewrite Hr.
Qed.

(** X11: a plain line that follows a dialogue header, with nothing but
    noise lines in between, becomes the second line of that dialogue. *)
Theorem continuation_across_noise (pre mid : list pystr) (h l name text : pystr) :
  blank h = false -> noise_line h = false ->
  split1 fw_colon (strip h) = Some (name, text) ->
  plain_text (strip name) ∉ STAGE_NAMES ->
  Forall (fun r => noise_line r = true) mid ->
  blank l = false -> noise_line l = false ->
  contains fw_colon (strip l) = false ->
  opens_paren (strip l) = false -> closes_paren (strip l) = false ->
  blocks (classify (pre ++ [h] ++ mid ++ [l]))
  = blocks (classify pre)
    ++ [DialogueBlock (fst (split_note (strip name))) (snd (split_note (strip name)))
                      [strip text; strip l]].
Proof.
  intros Hbh Hnh Eh Hname Hmid Hbl Hnl Hcolon Ho Hc.
  unfold classify. rewrite !fold_left_app. cbn [fold_left].
  set (st := fold_left classify_line pre init).
  rewrite (classify_line_content _ _ Hbh Hnh), Eh.
  rewrite (speaker_line_dialogue _ _ _ Hname).
  rewrite skipped_lines_fold
    by (eapply Forall_impl; [exact Hmid | by intros; right]).
  rewrite (noise_not_blank _ Hmid). cbn [blocks last_dialogue prev_blank orb].
  rewrite (classify_line_content _ _ Hbl Hnl).
  destruct (split1 fw_colon (strip l)) as [[a b]|] eqn:El.
  { assert (is_Some (split1 fw_colon (strip l))) as Hs by (by eexists).
    apply split1_contains in Hs. congruence. }
  unfold other_line. rewrite Ho, Hc. cbn [orb last_dialogue prev_blank negb blocks].
  replace (length (blocks st)) with (length (blocks st) + 0)%nat by lia.
  by rewrite alter_app_r.
Qed.

Lemma continuation_across_noise_witness :
  blocks (classify ([py "外景：海邊"] ++ [py "甲（笑）：早"] ++ [py "回復：一"] ++ [py "你好"]))
  = blocks (classify [py "外景：海邊"])
    ++ [DialogueBlock (fst (split_note (strip (py "甲（笑）"))))
                      (snd (split_note (strip (py "甲（笑）"))))
                      [strip (py "早"); strip (py "你好")]].
Proof.
  apply (continuation_across_noise
           [py "外景：海邊"] [py "回復：一"] (py "甲（笑）：早") (py "你好")
           (py "甲（笑）") (py "早")); try reflexivity.
  - apply (bool_decide_eq_false_1 (_ ∈ STAGE_NAMES)). reflexivity.
  - repeat constructor.
Defined.




End MoreClassifier.

(** * Brackets: parenthetical lines and header notes *)

Section Brackets.

Lemma open_bracket_cases o :
  is_open_bracket o = true -> o = 65288 \/ o = 40.
Proof.
  unfold is_open_bracket. intros [H|H]%orb_true_iff; apply N.eqb_eq in H; auto.
Qed.

Lemma close_bracket_cases c :
  is_close_bracket c = true -> c = 65289 \/ c = 41.
Proof.
  unfold is_close_bracket. intros [H|H]%orb_true_iff; apply N.eqb_eq in H; auto.
Qed.

Lemma opens_paren_cons o s : opens_paren (o :: s) = is_open_bracket o.
Proof.
  unfold opens_paren, is_open_bracket, fw_open, hw_open. cbn [startswith].
  by rewrite !andb_true_r.
Qed.

Lemma closes_paren_snoc s c : closes_paren (s ++ [c]) = is_close_bracket c.
Proof.
  unfold closes_paren, is_close_bracket, fw_close, hw_close.
  by rewrite !endswith_last.
Qed.

Lemma slice_from_1 o s : slice_from (o :: s) 1 = s.
Proof.
  unfold slice_from. change 1%Z with (Z.of_nat 1).
  by rewrite slice_index_nonneg by (simpl; lia).
Qed.

Lemma slice_to_minus1 s c : slice_to (s ++ [c]) (-1) = s.
Proof.
  unfold slice_to. rewrite slice_index_minus1, length_app. simpl.
  apply take_app_length'. lia.
Qed.

Lemma classify_paren_line st raw :
  blank raw = false -> noise_line raw = false ->
  contains fw_colon (strip raw) = false ->
  opens_paren (strip raw) || closes_paren (strip raw) = true ->
  classify_line st raw = push_stage st (unwrap_paren (strip raw)).
Proof.
  intros Hb Hn Hcolon Hp. rewrite (classify_line_content _ _ Hb Hn).
  destruct (split1 fw_colon (strip raw)) as [[a b]|] eqn:E.
  { assert (is_Some (split1 fw_colon (strip raw))) as Hs by (by eexists).
    apply split1_contains in Hs. congruence. }
  unfold other_line. by rewrite Hp.
Qed.

Lemma blank_false_cons raw c r : strip raw = c :: r -> blank raw = false.
Proof. unfold blank. by intros ->. Qed.

(** X13: a content line without a separator that opens or closes with a
    bracket becomes a stage block, and the current dialogue is closed.
    The text loses the opening bracket, the closing bracket, or both; the
    two bracket styles may be mixed. *)
Theorem paren_line_stage (st : classifier) (raw : pystr) :
  noise_line raw = false -> contains fw_colon (strip raw) = false ->
  (forall o inner c,
      is_open_bracket o = true -> is_close_bracket c = true ->
      strip raw = [o] ++ inner ++ [c] ->
      classify_line st raw = push_stage st (strip inner)) /\
  (forall o rest,
      is_open_bracket o = true -> closes_paren (strip raw) = false ->
      strip raw = o :: rest ->
      classify_line st raw = push_stage st (strip rest)) /\
  (forall init c,
      is_close_bracket c = true -> opens_paren (strip raw) = false ->
      strip raw = init ++ [c] ->
      classify_line st raw = push_stage st (strip init)).
Proof.
  intros Hn Hcolon. split; [|split].
  - intros o inner c Ho Hc Hs.
    rewrite classify_paren_line; try done.
    + rewrite Hs. unfold unwrap_paren.
      replace (closes_paren ([o] ++ inner ++ [c])) with (is_close_bracket c)
        by (by rewrite app_assoc, closes_paren_snoc).
      cbn [app]. rewrite opens_paren_cons, Ho, Hc. cbn [andb].
      f_equal. f_equal. apply (slice_inner [] o inner c).
    + by eapply blank_false_cons.
    + rewrite Hs. cbn [app]. by rewrite opens_paren_cons, Ho.
  - intros o rest Ho Hc Hs.
    rewrite classify_paren_line; try done.
    + unfold unwrap_paren. rewrite Hc, Hs, opens_paren_cons, Ho. cbn [andb].
      by rewrite slice_from_1.
    + by eapply blank_false_cons.
    + by rewrite Hs, opens_paren_cons, Ho.
  - intros init c Hc Ho Hs.
    rewrite classify_paren_line; try done.
    + unfold unwrap_paren. rewrite Ho, Hs, closes_paren_snoc, Hc. cbn [andb].
      by rewrite slice_to_minus1.
    + unfold blank. rewrite Hs. by destruct init.
    + by rewrite Ho, Hs, closes_paren_snoc, Hc.
Qed.

Lemma paren_line_stage_witness :
  classify_line (classify [py "甲：早"]) (py " （ 他轉身離開 ) ")
  = push_stage (classify [py "甲：早"]) (strip (py " 他轉身離開 ")).
Proof.
  apply (proj1 (paren_line_stage (classify [py "甲：早"]) (py " （ 他轉身離開 ) ")
                  eq_refl eq_refl) 65288 (py " 他轉身離開 ") 41);
    reflexivity.
Defined.

Lemma split_note_parts o c head inner :
  o <> c -> o ∉ inner ->
  contains [o] (head ++ [o] ++ inner ++ [c]) && endswith (head ++ [o] ++ inner ++ [c]) [c]
  = true /\
  slice_to (head ++ [o] ++ inner ++ [c]) (rfind [o] (head ++ [o] ++ inner ++ [c]))
  = head /\
  slice (head ++ [o] ++ inner ++ [c])
        (rfind [o] (head ++ [o] ++ inner ++ [c]) + 1) (-1) = inner.
Proof.
  intros Hne Hin.
  assert (Hr : rfind [o] (head ++ [o] ++ inner ++ [c]) = Z.of_nat (length head)).
  { apply rfind_single_last. apply not_elem_of_app. split; [done|].
    apply not_elem_of_cons. split; [done | apply not_elem_of_nil]. }
  rewrite Hr. split; [|split].
  - rewrite contains_app. rewrite !app_assoc. by rewrite endswith_app.
  - by rewrite slice_to_head.
  - by rewrite slice_inner.
Qed.

(** X14: a header takes its note from the closing bracket at its end and
    the last opening bracket of the same style: the name is the trimmed
    text before that bracket, the note the trimmed text between the two;
    brackets of the other style are ordinary characters.  A header that
    ends with a closing bracket but holds no opening bracket of that
    style, or that does not end with a closing bracket, has no note and
    stays the character name as it is. *)
Theorem header_note :
  (forall head inner : pystr,
      65288 ∉ inner ->
      split_note (head ++ fw_open ++ inner ++ fw_close)
      = (strip head, Some (strip inner))) /\
  (forall head inner : pystr,
      40 ∉ inner ->
      split_note (head ++ hw_open ++ inner ++ hw_close)
      = (strip head, Some (strip inner))) /\
  (forall name : pystr,
      65288 ∉ name ->
      split_note (name ++ fw_close) = (name ++ fw_close, None)) /\
  (forall name : pystr,
      40 ∉ name ->
      split_note (name ++ hw_close) = (name ++ hw_close, None)) /\
  (forall name : pystr,
      closes_paren name = false -> split_note name = (name, None)).
Proof.
  unfold split_note, closes_paren, fw_open, fw_close, hw_open, hw_close.
  split; [|split; [|split; [|split]]].
  - intros head inner Hin.
    destruct (split_note_parts 65288 65289 head inner) as (H1 & H2 & H3);
      [done | done |].
    by rewrite H1, H2, H3.
  - intros head inner Hin.
    destruct (split_note_parts 40 41 head inner) as (H1 & H2 & H3);
      [done | done |].
    replace (endswith (head ++ [40] ++ inner ++ [41]) [65289]) with false
      by (rewrite !app_assoc; by rewrite endswith_last).
    rewrite andb_false_r. by rewrite H1, H2, H3.
  - intros name Hn.
    replace (contains [65288] (name ++ [65289])) with false.
    2:{ symmetry. apply contains_single, not_elem_of_app. split; [done|].
        apply not_elem_of_cons. split; [done | apply not_elem_of_nil]. }
    cbn [andb]. rewrite (endswith_last name 65289 41).
    by rewrite andb_false_r.
  - intros name Hn.
    rewrite (endswith_last name 41 65289), andb_false_r.
    replace (contains [40] (name ++ [41])) with false; [done|].
    symmetry. apply contains_single, not_elem_of_app. split; [done|].
    apply not_elem_of_cons. split; [done | apply not_elem_of_nil].
  - intros name [H1 H2]%orb_false_iff.
    by rewrite H1, H2, !andb_false_r.
Qed.

Lemma header_note_witness :
  split_note (py "李四 " ++ hw_open ++ py " 笑 " ++ hw_close)
  = (strip (py "李四 "), Some (strip (py " 笑 ")))
  /\ split_note (py "李四（笑" ++ hw_close) = (py "李四（笑" ++ hw_close, None).
Proof.
  split.
  - apply (proj1 (proj2 header_note) (py "李四 ") (py " 笑 ")).
    apply (proj1 (contains_single _ _)). reflexivity.
  - apply (proj1 (proj2 (proj2 (proj2 header_note))) (py "李四（笑")).
    apply (proj1 (contains_single _ _)). reflexivity.
Defined.

End Brackets.

(** * More on the output *)

Section MoreOutput.

Lemma join_snoc sep L x :
  L <> [] -> join sep (L ++ [x]) = join sep L ++ sep ++ x.
Proof.
  induction L as [|p L IH]; [done|]. intros _.
  destruct L as [|q L]; [done|].
  change (join sep ((p :: q :: L) ++ [x]))
    with (p ++ sep ++ join sep ((q :: L) ++ [x])).
  rewrite IH by done.
  change (join sep (p :: q :: L)) with (p ++ sep ++ join sep (q :: L)).
  by rewrite <- !app_assoc.
Qed.

Lemma block_template_ends b :
  exists L y, block_template b = L ++ [y ++ [125]; []].
Proof.
  destruct b as [text|char stage lines].
  - exists [], (py "\stage{" ++ text). unfold block_template.
    change (py "}") with [125]. by rewrite <- app_assoc.
  - exists ([py "\charname{" ++ char ++ py "}"]
            ++ match stage with
               | Some (c :: r) => [py "\stage{" ++ (c :: r) ++ py "}"]
               | _ => []
               end
            ++ [py "\begin{dialogue}"] ++ lines), (py "\end{dialogue").
    unfold block_template.
    change (py "\end{dialogue}") with (py "\end{dialogue" ++ [125]).
    by rewrite <- !app_assoc.
Qed.

Lemma rstrip_brace_nl w : rstrip ((w ++ [125]) ++ [10]) = w ++ [125].
Proof.
  unfold rstrip. rewrite !rev_unit. cbn [dropwhile].
  change (isspace 10) with true. change (isspace 125) with false. cbv iota.
  change (125 :: rev w) with (rev [125] ++ rev w).
  by rewrite <- rev_app_distr, rev_involutive.
Qed.

(** X15: for at least one block, trimming the joined lines only removes
    the newline of the last blank line, so the output is exactly the
    rendered lines joined by newlines: no text is cut and blocks stay one
    blank line apart. *)
Theorem serialize_is_join (bs : list block) :
  bs <> [] -> serialize bs = join nl (concat (map block_template bs)).
Proof.
  intros Hne. rewrite serialize_templates.
  induction bs as [|b0 bs0 _] using rev_ind; [done|]. clear Hne.
  rewrite map_app, concat_app. cbn [map concat]. rewrite app_nil_r.
  destruct (block_template_ends b0) as (L & y & ->).
  set (K := concat (map block_template bs0) ++ L).
  replace (concat (map block_template bs0) ++ L ++ [y ++ [125]; []])
    with ((K ++ [y ++ [125]]) ++ [[]])
    by (unfold K; by rewrite <- !app_assoc).
  rewrite join_snoc by (by destruct K).
  assert (exists w, join nl (K ++ [y ++ [125]]) = w ++ [125]) as [w ->].
  { destruct K as [|k K'] eqn:EK.
    - by exists y.
    - rewrite join_snoc by done. eexists. by rewrite !app_assoc. }
  rewrite app_nil_r. by rewrite rstrip_brace_nl.
Qed.

Lemma serialize_is_join_witness :
  serialize [StageBlock (py "海邊"); DialogueBlock (py "甲") (Some (py "笑")) [py "早"]]
  = join nl (concat (map block_template
       [StageBlock (py "海邊"); DialogueBlock (py "甲") (Some (py "笑")) [py "早"]])).
Proof. apply serialize_is_join. discriminate. Defined.

Lemma splitlines_from_nl n s cur :
  (length s <= n)%nat ->
  splitlines_from cur (s ++ [10]) = splitlines_from cur s \/
  splitlines_from cur (s ++ [10]) = splitlines_from cur s ++ [[]].
Proof.
  revert s cur. induction n as [|n IH]; intros s cur Hlen.
  - destruct s; [|simpl in Hlen; lia].
    destruct cur; [by right | by left].
  - destruct s as [|c r].
    { destruct cur; [by right | by left]. }
    simpl in Hlen. cbn [app splitlines_from].
    destruct (is_linebreak c).
    + destruct r as [|d r'].
      * cbn [app]. destruct (c =? 13); cbn [andb]; [by left | by right].
      * cbn [app]. destruct ((c =? 13) && (d =? 10)).
        -- destruct (IH r' [] ltac:(simpl in Hlen; lia)) as [->| ->];
             [by left | by right].
        -- destruct (IH (d :: r') [] ltac:(simpl in *; lia)) as [E|E];
             cbn [app] in E; rewrite E; [by left | by right].
    + apply IH. lia.
Qed.

Lemma merge_blank_tail lines :
  merge_parenthetical_lines (lines ++ [[]]) = merge_parenthetical_lines lines \/
  merge_parenthetical_lines (lines ++ [[]]) = merge_parenthetical_lines lines ++ [[]].
Proof.
  destruct (merge_loop_inv lines) as (_ & Hb & _).
  unfold merge_parenthetical_lines. rewrite merge_loop_snoc.
  destruct (merge_loop lines) as [m [b|]]; simpl in *.
  - destruct (Hb b eq_refl) as (_ & _ & Hc).
    left. change (strip (rstrip_nl [])) with (@nil N).
    by rewrite app_nil_r, Hc.
  - by right.
Qed.

Lemma classify_blank_tail merged :
  blocks (classify (merged ++ [[]])) = blocks (classify merged).
Proof. rewrite classify_snoc. by rewrite classify_line_blank. Qed.

(** X16: one more newline at the end of the text does not change the
    output. *)
Theorem format_script_trailing_newline (text : pystr) :
  format_script (text ++ nl) = format_script text.
Proof.
  unfold format_script, splitlines, nl.
  destruct (splitlines_from_nl (length text) text [] ltac:(lia)) as [->| ->];
    [done|].
  destruct (merge_blank_tail (splitlines_from [] text)) as [->| ->]; [done|].
  by rewrite classify_blank_tail.
Qed.

End MoreOutput.

(** * Bounds, padding and empty parts *)

Section Edges.

Lemma merge_length_le lines :
  (length (merge_parenthetical_lines lines) <= length lines)%nat.
Proof.
  pose proof (merge_fold_count lines ([], None)) as H.
  unfold merge_parenthetical_lines, merge_loop.
  destruct (fold_left merge_step lines ([], None)) as [merged [buf|]];
    simpl in *; rewrite ?length_app; simpl; lia.
Qed.

Lemma length_le_weight bs :
  Forall (fun b => dialogue_lines b <> Some []) bs ->
  (length bs <= sum_list_with block_weight bs)%nat.
Proof.
  induction 1 as [|b bs Hb _ IH]; [done|]. simpl.
  assert (1 <= block_weight b)%nat; [|lia].
  destruct b as [t|c n [|x ls]]; simpl; try lia. done.
Qed.

(** X17: the result never has more blocks than the input has lines. *)
Theorem block_count_bound (lines : list pystr) :
  (length (blocks (classify (merge_parenthetical_lines lines))) <= length lines)%nat.
Proof.
  pose proof (merge_length_le lines) as Hm.
  set (merged := merge_parenthetical_lines lines) in *.
  assert (Hw : (length (blocks (classify merged))
                <= sum_list_with block_weight (blocks (classify merged)))%nat).
  { apply length_le_weight, classify_fold_nonempty. constructor. }
  rewrite classify_weight in Hw.
  pose proof (List.filter_length_le content_line merged). lia.
Qed.

Lemma dropwhile_app_all p w s :
  Forall (fun c => p c = true) w -> dropwhile p (w ++ s) = dropwhile p s.
Proof. induction 1 as [|c w Hc _ IH]; [done|]. simpl. by rewrite Hc. Qed.

Lemma rstrip_app_space x ws :
  Forall (fun c => isspace c = true) ws -> rstrip (x ++ ws) = rstrip x.
Proof.
  intros H. unfold rstrip. rewrite rev_app_distr, dropwhile_app_all; [done|].
  by apply Forall_rev.
Qed.

Lemma strip_padding ws1 raw ws2 :
  Forall (fun c => isspace c = true) ws1 ->
  Forall (fun c => isspace c = true) ws2 ->
  strip (ws1 ++ raw ++ ws2) = strip raw.
Proof.
  intros H1 H2. unfold strip, lstrip. rewrite (dropwhile_app_all _ _ _ H1).
  destruct (dropwhile_split isspace raw) as (w & Hw & Hall).
  rewrite Hw at 1. rewrite <- app_assoc, (dropwhile_app_all _ _ _ Hall).
  destruct (dropwhile_head isspace raw) as [->|(c & r & -> & Hc)].
  - cbn [app]. by rewrite dropwhile_all.
  - cbn [app dropwhile]. rewrite Hc.
    by apply (rstrip_app_space (c :: r)).
Qed.

(** X18: white space before and after a line never changes what the
    classifier does with it. *)
Theorem classify_line_padding (st : classifier) (ws1 raw ws2 : pystr) :
  Forall (fun c => isspace c = true) ws1 ->
  Forall (fun c => isspace c = true) ws2 ->
  classify_line st (ws1 ++ raw ++ ws2) = classify_line st raw.
Proof.
  intros H1 H2. unfold classify_line. by rewrite (strip_padding _ _ _ H1 H2).
Qed.

Lemma classify_line_padding_witness :
  classify_line init ([32; 9] ++ py "甲：早" ++ [12288; 32])
  = classify_line init (py "甲：早").
Proof. apply classify_line_padding; repeat constructor. Defined.

Lemma split1_single_app c a b :
  c ∉ a -> split1 [c] (a ++ c :: b) = Some (a, b).
Proof.
  induction a as [|x a IH]; intros H; cbn [app split1 startswith].
  - by rewrite N.eqb_refl.
  - apply not_elem_of_cons in H as [Hx Ha].
    apply not_eq_sym, N.eqb_neq in Hx. rewrite Hx. cbn [andb].
    by rewrite (IH Ha).
Qed.

(** X19: the parts around the separator may be empty.  A line that opens
    with the separator is a dialogue of a character with an empty name; a
    line that ends with its only separator is a dialogue whose single line
    is empty. *)
Theorem empty_name_or_text (st : classifier) (raw : pystr) :
  noise_line raw = false ->
  (forall text,
      strip raw = fw_colon ++ text ->
      classify_line st raw
      = {| blocks := blocks st ++ [DialogueBlock [] None [strip text]];
           last_dialogue := Some (length (blocks st));
           prev_blank := false |}) /\
  (forall name,
      65306 ∉ name -> strip raw = name ++ fw_colon ->
      plain_text (strip name) ∉ STAGE_NAMES ->
      blocks (classify_line st raw)
      = blocks st ++ [DialogueBlock (fst (split_note (strip name)))
                                    (snd (split_note (strip name))) [[]]]).
Proof.
  intros Hn. split.
  - intros text Hs.
    rewrite classify_line_content;
      [|exact (blank_false_cons raw 65306 text Hs)|done].
    rewrite Hs. unfold fw_colon.
    pose proof (split1_single_app 65306 [] text (not_elem_of_nil _)) as E.
    cbn [app] in *. rewrite E.
    rewrite speaker_line_dialogue; [done|].
    by apply (bool_decide_eq_false_1 (_ ∈ STAGE_NAMES)).
  - intros name Hname Hs Hk.
    rewrite classify_line_content; [|unfold blank; rewrite Hs; by destruct name|done].
    rewrite Hs. unfold fw_colon.
    rewrite (split1_single_app 65306 name [] Hname).
    by rewrite (speaker_line_dialogue _ _ _ Hk).
Qed.

Lemma empty_name_or_text_witness :
  classify_line init (py " ：  早 ")
  = {| blocks := [DialogueBlock [] None [strip (py "  早")]];
       last_dialogue := Some 0%nat;
       prev_blank := false |}.
Proof.
  apply (proj1 (empty_name_or_text init (py " ：  早 ") eq_refl) (py "  早")).
  reflexivity.
Defined.

End Edges.

(** * What one pass of the stripper leaves *)

Section ScanPieces.

Lemma scan_text_fuel fuel s :
  concat (map piece_text (RUBY_RE_scan fuel s)) = RUBY_RE_sub fuel s.
Proof.
  revert s. induction fuel as [|f IH]; intros s.
  - cbn [RUBY_RE_scan RUBY_RE_sub].
    induction s as [|c r IHr]; [done|]. cbn [map concat piece_text app].
    by rewrite IHr.
  - cbn [RUBY_RE_scan RUBY_RE_sub].
    destruct (RUBY_RE_match s) as [[base rest]|].
    + cbn [map concat piece_text]. by rewrite IH.
    + destruct s as [|c r]; [done|]. cbn [map concat piece_text app].
      by rewrite IH.
Qed.

Lemma spans_balanced_suffix pre s :
  spans_balanced (pre ++ s) = true -> spans_balanced s = true.
Proof.
  induction pre as [|c pre IH]; [done|].
  cbn [app spans_balanced]. intros [_ H]%andb_true_iff. by apply IH.
Qed.

Lemma spans_balanced_head s :
  spans_balanced s = true -> startswith s ruby_token = true ->
  RUBY_RE_match s <> None.
Proof.
  intros H Ht.
  assert (Hh : (if startswith s ruby_token
                then match RUBY_RE_match s with Some _ => true | None => false end
                else true) = true).
  { destruct s; cbn [spans_balanced] in H; by apply andb_true_iff in H as [? _]. }
  rewrite Ht in Hh. by destruct (RUBY_RE_match s).
Qed.

(** Copied pieces at the head of the scan are the head of the input. *)
Lemma scan_copied_prefix w fuel s post :
  (length s <= fuel)%nat ->
  RUBY_RE_scan fuel s = map Copied w ++ post -> startswith s w = true.
Proof.
  revert fuel s. induction w as [|x w IH]; intros fuel s Hlen E; [done|].
  destruct fuel as [|f].
  { destruct s; [done | simpl in Hlen; lia]. }
  cbn [RUBY_RE_scan map app] in E.
  destruct (RUBY_RE_match s) as [[base rest]|]; [done|].
  destruct s as [|c r]; [done|]. injection E as -> E.
  cbn [startswith]. rewrite N.eqb_refl. cbn [andb].
  apply (IH f); [simpl in Hlen; lia | done].
Qed.

Lemma scan_copies_no_token fuel s pre post :
  (length s <= fuel)%nat -> spans_balanced s = true ->
  RUBY_RE_scan fuel s <> pre ++ map Copied ruby_token ++ post.
Proof.
  revert fuel s. induction pre as [|p pre IH]; intros fuel s Hlen Hbal E.
  - pose proof (scan_copied_prefix _ _ _ _ Hlen E) as Ht.
    apply (spans_balanced_head _ Hbal Ht).
    destruct fuel as [|f].
    { destruct s; [by vm_compute in Ht | simpl in Hlen; lia]. }
    cbn [RUBY_RE_scan] in E.
    by destruct (RUBY_RE_match s) as [[base rest]|].
  - destruct fuel as [|f].
    { destruct s; [done | simpl in Hlen; lia]. }
    cbn [RUBY_RE_scan app] in E.
    destruct (RUBY_RE_match s) as [[base rest]|] eqn:Em.
    + injection E as _ E.
      destruct (RUBY_RE_match_rest _ _ _ Em) as (q & Hq & Hlt).
      apply (IH f rest); [|by rewrite Hq in Hbal; apply spans_balanced_suffix in Hbal|done].
      apply (f_equal length) in Hq. rewrite length_app in Hq. lia.
    + destruct s as [|c r]; [done|]. injection E as _ E.
      apply (IH f r); [simpl in Hlen; lia| |done].
      by apply (spans_balanced_suffix [c]).
Qed.

Lemma startswith_app_compatible b t w :
  startswith (b ++ t) w = true -> compatible b w = true.
Proof.
  unfold compatible. revert b. induction w as [|x w IH]; intros b H.
  - done.
  - destruct b as [|y b]; [by rewrite orb_true_r|].
    cbn [app startswith] in *.
    apply andb_true_iff in H as [Hy H]. apply N.eqb_eq in Hy as ->.
    rewrite N.eqb_refl. cbn [andb]. by apply IH.
Qed.

Lemma base_text_no_token b t :
  base_ok b = true -> contains ruby_token t = false ->
  contains ruby_token (b ++ t) = false.
Proof.
  intros Hb Ht. induction b as [|y b IH]; [done|].
  cbn [base_ok] in Hb. apply andb_true_iff in Hb as [Hy Hb].
  apply negb_true_iff in Hy.
  change ((y :: b) ++ t) with (y :: b ++ t). cbn [contains].
  rewrite (IH Hb), orb_false_r.
  destruct (startswith (y :: b ++ t) ruby_token) eqn:E; [|done].
  apply (startswith_app_compatible (y :: b) t) in E. congruence.
Qed.

Lemma stray_copied w ps :
  startswith (concat (map piece_text ps)) w = true ->
  stray_ok w ps = true ->
  exists post, ps = map Copied w ++ post.
Proof.
  revert ps. induction w as [|x w IH]; intros ps Hs Hok; [by exists ps|].
  destruct ps as [|[c|b] ps].
  - done.
  - cbn [map concat piece_text app startswith stray_ok] in *.
    apply andb_true_iff in Hs as [Hc Hs]. rewrite Hc in Hok.
    apply N.eqb_eq in Hc as ->.
    destruct (IH ps Hs Hok) as [post ->]. by exists post.
  - cbn [map concat piece_text stray_ok] in *.
    apply startswith_app_compatible in Hs. apply negb_true_iff in Hok.
    congruence.
Qed.

(** Pieces that copy no token and pass the local checks spell no token. *)
Lemma pieces_no_token ps :
  (forall pre post, ps <> pre ++ map Copied ruby_token ++ post) ->
  pieces_safe ps = true ->
  contains ruby_token (concat (map piece_text ps)) = false.
Proof.
  induction ps as [|[c|b] ps IH]; intros Hno Hsafe; [done| |].
  - cbn [pieces_safe] in Hsafe. apply andb_true_iff in Hsafe as [Hc Hsafe].
    assert (Htail : contains ruby_token (concat (map piece_text ps)) = false).
    { apply IH; [|done]. intros pre post ->.
      by apply (Hno (Copied c :: pre) post). }
    cbn [map concat piece_text app contains]. rewrite Htail, orb_false_r.
    destruct (startswith (c :: concat (map piece_text ps)) ruby_token) eqn:E;
      [|done].
    unfold ruby_token in E. cbn [startswith] in E.
    apply andb_true_iff in E as [Ec E]. apply N.eqb_eq in Ec as ->.
    change (92 =? backslash) with true in Hc. cbv iota in Hc.
    destruct (stray_copied ruby_word ps E Hc) as [post ->].
    by destruct (Hno [] post).
  - cbn [pieces_safe] in Hsafe. apply andb_true_iff in Hsafe as [Hb Hsafe].
    cbn [map concat piece_text]. apply base_text_no_token; [done|].
    apply IH; [|done]. intros pre post ->.
    by apply (Hno (Replaced b :: pre) post).
Qed.

Lemma has_span_token s : has_span s = true -> contains ruby_token s = true.
Proof.
  induction s as [|c r IH]; cbn [has_span].
  - by rewrite RUBY_RE_match_nil.
  - destruct (RUBY_RE_match (c :: r)) as [[base rest]|] eqn:E.
    + intros _. apply RUBY_RE_match_shape in E as (reading & -> & _).
      by unfold annotation, ruby_open, ruby_token.
    + intros H. cbn [contains]. by rewrite (IH H), orb_true_r.
Qed.

(** Flat spans pass every check: the earlier condition is a special
    case. *)
Lemma spans_flat_balanced s : spans_flat s = true -> spans_balanced s = true.
Proof.
  induction s as [|c r IH]; [done|].
  cbn [spans_flat spans_balanced]. intros [Hc Hr]%andb_true_iff.
  rewrite (IH Hr), andb_true_r.
  destruct (startswith (c :: r) ruby_token) eqn:E; [|done].
  unfold ruby_token in E. cbn [startswith] in E.
  apply andb_true_iff in E as [Ec _]. apply N.eqb_eq in Ec as ->.
  change (92 =? backslash) with true in Hc. cbv iota in Hc.
  by destruct (RUBY_RE_match (92 :: r)) as [[? ?]|].
Qed.

Lemma base_ok_no_backslash b : backslash ∉ b -> base_ok b = true.
Proof.
  induction b as [|y b IH]; [done|].
  intros [Hy Hb]%not_elem_of_cons. cbn [base_ok]. rewrite (IH Hb), andb_true_r.
  unfold compatible, ruby_token. cbn [startswith].
  apply N.eqb_neq in Hy as Hy1. apply not_eq_sym, N.eqb_neq in Hy as Hy2.
  unfold backslash in *. by rewrite N.eqb_sym, Hy1.
Qed.

Lemma spans_flat_scan_safe fuel s :
  (length s <= fuel)%nat -> spans_flat s = true ->
  pieces_safe (RUBY_RE_scan fuel s) = true.
Proof.
  revert s. induction fuel as [|f IH]; intros s Hlen Hflat.
  { destruct s; [done | simpl in Hlen; lia]. }
  cbn [RUBY_RE_scan]. destruct s as [|c r].
  { by rewrite RUBY_RE_match_nil. }
  pose proof Hflat as Hflat0.
  cbn [spans_flat] in Hflat. apply andb_true_iff in Hflat as [Hc Hr].
  destruct (RUBY_RE_match (c :: r)) as [[base rest]|] eqn:E.
  - destruct (RUBY_RE_match_head _ _ _ E) as [r' [= -> <-]].
    change (92 =? backslash) with true in Hc. cbv iota in Hc.
    apply negb_true_iff, contains_single in Hc.
    destruct (RUBY_RE_match_rest _ _ _ E) as (pre & Hpre & Hlt).
    cbn [pieces_safe]. rewrite (base_ok_no_backslash _ Hc). cbn [andb].
    apply IH.
    + apply (f_equal length) in Hpre. rewrite length_app in Hpre.
      simpl in *. lia.
    + rewrite Hpre in Hflat0. by apply spans_flat_suffix in Hflat0.
  - destruct (c =? backslash) eqn:Ec; [done|].
    cbn [pieces_safe]. rewrite Ec. cbn [andb].
    apply IH; [simpl in Hlen; lia | done].
Qed.

(** C7, as the code has it.  On a line where every [\ruby] token opens a
    well-formed span, one pass copies no [\ruby] token of the input into
    the plain text: a token left there takes a character from the base of
    a replaced span or runs across the place of one.  The plain text holds
    no token and no span at all when no replaced base has a character
    that starts the token or a part of it running to the end of the base,
    and no copied backslash leads, along the token, straight to a replaced
    span whose base could go on with it. *)
Theorem plain_text_no_markup (s : pystr) :
  spans_balanced s = true ->
  concat (map piece_text (scan s)) = plain_text s /\
  (forall pre post, scan s <> pre ++ map Copied ruby_token ++ post) /\
  (pieces_safe (scan s) = true ->
   contains ruby_token (plain_text s) = false /\
   has_span (plain_text s) = false).
Proof.
  intros Hbal.
  assert (Htext : concat (map piece_text (scan s)) = plain_text s)
    by apply scan_text_fuel.
  assert (Hno : forall pre post, scan s <> pre ++ map Copied ruby_token ++ post).
  { intros pre post. by apply scan_copies_no_token. }
  split; [done|]. split; [done|]. intros Hsafe.
  assert (Ht : contains ruby_token (plain_text s) = false).
  { rewrite <- Htext. by apply pieces_no_token. }
  split; [done|].
  destruct (has_span (plain_text s)) eqn:E; [|done].
  apply has_span_token in E. congruence.
Qed.

Lemma plain_text_no_markup_witness :
  contains ruby_token
    (plain_text (py "100\% \ruby{海}{\hoi2}\emph{x}\\ruby{邊\n}{bin1}")) = false /\
  has_span
    (plain_text (py "100\% \ruby{海}{\hoi2}\emph{x}\\ruby{邊\n}{bin1}")) = false.
Proof.
  apply (plain_text_no_markup
           (py "100\% \ruby{海}{\hoi2}\emph{x}\\ruby{邊\n}{bin1}"));
    reflexivity.
Defined.

End ScanPieces.

Example header_note_same_style :
  split_note (py "甲(一)（笑)") = (py "甲", Some (py "一)（笑")).
Proof. reflexivity. Qed.
